(** * Rule engine of the chess page (src/pages/Index.tsx)

    A shallow embedding of the move-legality predicate [isValidMove], of the
    move enumeration and random pick inside [makeAIMove], and of the
    copy-then-update of the board that both [makeAIMove] and
    [handleSquareClick] perform, followed by the properties of the
    specification that concern them.

    Numbers are integers ([Z]); a JavaScript array is a list, read with the
    language's own out-of-range behaviour: indexing past either end yields
    [undefined], and indexing [undefined] throws a [TypeError]. *)

From Stdlib Require Import ZArith List Lia.
From Stdlib Require Import QArith Qround.
From stdpp Require Import base option list gmap.

Local Open Scope Z_scope.

(** ** Data model *)

Inductive PieceType := king | queen | rook | bishop | knight | pawn.
Inductive PieceColor := white | black.

Record Piece := mkPiece { type : PieceType; color : PieceColor }.

#[global] Instance PieceType_eq_dec : EqDecision PieceType.
Proof. solve_decision. Defined.
#[global] Instance PieceColor_eq_dec : EqDecision PieceColor.
Proof. solve_decision. Defined.
#[global] Instance Piece_eq_dec : EqDecision Piece.
Proof. solve_decision. Defined.

(** A square holds [Piece | null]; [undefined], which a read past the end of
    a row produces, is as falsy as [null] and is identified with it: the
    program only ever tests a square for truthiness. *)
Abbreviation Row := (list (option Piece)).
Abbreviation Board := (list Row).

(** [[fromRow, fromCol, toRow, toCol]] *)
Definition Move := (Z * Z * Z * Z)%type.

(** ** Outcomes

    [TypeError] is the exception JavaScript throws on [undefined[c]].  The
    other three never come from the program itself: [OutOfBounds] is raised
    by the checked accessor only, [OutOfFuel] by a [while] loop cut short,
    and [Dangling] by a reference to no array of the store. *)
Inductive error := TypeError | OutOfBounds | OutOfFuel | Dangling.

Inductive result (A : Type) :=
| Ok (a : A)
| Err (e : error).
Arguments Ok {A} a.
Arguments Err {A} e.

Definition bind {A B} (m : result A) (k : A -> result B) : result B :=
  match m with
  | Ok a => k a
  | Err e => Err e
  end.

Notation "'let*' x ':=' m 'in' k" := (bind m (fun x => k))
  (at level 10, x name, m at level 100, k at level 200).

(** ** Reading the board *)

(** [l[i]], [None] standing for [undefined]. *)
Definition lookupZ {A} (l : list A) (i : Z) : option A :=
  if i <? 0 then None else l !! Z.to_nat i.

(** [board[r][c]] *)
Definition get (board : Board) (r c : Z) : result (option Piece) :=
  match lookupZ board r with
  | None => Err TypeError
  | Some row => Ok (default None (lookupZ row c))
  end.

(** The same read where every index outside the 8x8 grid is an error. *)
Definition getChecked (board : Board) (r c : Z) : result (option Piece) :=
  if (0 <=? r) && (r <? 8) && (0 <=? c) && (c <? 8) then
    match lookupZ board r with
    | None => Err OutOfBounds
    | Some row =>
        match lookupZ row c with
        | None => Err OutOfBounds
        | Some cell => Ok cell
        end
    end
  else Err OutOfBounds.

Definition truthy (cell : option Piece) : bool :=
  match cell with Some _ => true | None => false end.

(** [targetPiece && targetPiece.color === piece.color] *)
Definition sameColor (targetPiece : option Piece) (piece : Piece) : bool :=
  match targetPiece with
  | Some t => bool_decide (color t = color piece)
  | None => false
  end.

(** ** The starting position *)

Definition backRank (c : PieceColor) : Row :=
  map (fun t => Some (mkPiece t c))
      [rook; knight; bishop; queen; king; bishop; knight; rook].

Definition initialBoard : Board :=
  [ backRank black;
    replicate 8 (Some (mkPiece pawn black));
    replicate 8 None;
    replicate 8 None;
    replicate 8 None;
    replicate 8 None;
    replicate 8 (Some (mkPiece pawn white));
    backRank white ].

(** ** isValidMove (lines 64-153) *)

(** [piece.color === 'white' ? -1 : 1] (line 76) *)
Definition directionOf (c : PieceColor) : Z :=
  match c with white => -1 | black => 1 end.

(** [piece.color === 'white' ? 6 : 1] (line 77) *)
Definition startRowOf (c : PieceColor) : Z :=
  match c with white => 6 | black => 1 end.

Section RuleEngine.

(** How a square is read: [get] for the program as it runs. *)
Variable access : Board -> Z -> Z -> result (option Piece).
Variable board : Board.

(** [for (let i = start; i < start + n; i++) if (cell(i)) return false;]
    run for its [n] rounds; [Ok true] when it falls through. *)
Fixpoint forLoop (n : nat) (i : Z) (cell : Z -> result (option Piece))
  : result bool :=
  match n with
  | O => Ok true
  | S n' =>
      let* x := cell i in
      if truthy x then Ok false else forLoop n' (i + 1) cell
  end.

(** Lines 87-97 (rook) and 122-132 (queen): the squares strictly between
    the two ends of a move along a row or a column. *)
Definition straightPath (fromRow fromCol toRow toCol : Z) : result bool :=
  let '(startR, endR) :=
    if fromRow <? toRow then (fromRow, toRow) else (toRow, fromRow) in
  let '(startC, endC) :=
    if fromCol <? toCol then (fromCol, toCol) else (toCol, fromCol) in
  if fromRow =? toRow then
    forLoop (Z.to_nat (endC - (startC + 1))) (startC + 1)
            (fun c => access board fromRow c)
  else
    forLoop (Z.to_nat (endR - (startR + 1))) (startR + 1)
            (fun r => access board r fromCol).

(** [while (r !== toRow && c !== toCol) { if (board[r][c]) return false;
    r += rowDir; c += colDir; }], one unit of fuel for each test of the
    loop condition. *)
Fixpoint whileLoop (fuel : nat) (toRow toCol rowDir colDir r c : Z)
  : result bool :=
  match fuel with
  | O => Err OutOfFuel
  | S fuel' =>
      if negb (r =? toRow) && negb (c =? toCol) then
        let* x := access board r c in
        if truthy x then Ok false
        else whileLoop fuel' toRow toCol rowDir colDir
                       (r + rowDir) (c + colDir)
      else Ok true
  end.

(** Lines 107-114 (bishop) and 134-141 (queen).  The row index moves by one
    at every round and a row outside the board throws, so the loop cannot
    test its condition more than [length board + 1] times. *)
Definition diagonalPath (fromRow fromCol toRow toCol : Z) : result bool :=
  let rowDir := if toRow >? fromRow then 1 else -1 in
  let colDir := if toCol >? fromCol then 1 else -1 in
  whileLoop (S (length board)) toRow toCol rowDir colDir
            (fromRow + rowDir) (fromCol + colDir).

Definition isValidMoveWith (fromRow fromCol toRow toCol : Z) : result bool :=
  let* piece := access board fromRow fromCol in
  match piece with
  | None => Ok false
  | Some piece =>
      let* targetPiece := access board toRow toCol in
      if sameColor targetPiece piece then Ok false else
      let rowDiff := Z.abs (toRow - fromRow) in
      let colDiff := Z.abs (toCol - fromCol) in
      match type piece with
      | pawn =>
          let direction := directionOf (color piece) in
          let startRow := startRowOf (color piece) in
          (* line 82, then [return false] *)
          let capture :=
            Ok ((colDiff =? 1) && (toRow =? fromRow + direction)
                && truthy targetPiece) in
          if (toCol =? fromCol) && negb (truthy targetPiece) then
            if toRow =? fromRow + direction then Ok true
            else if (fromRow =? startRow) && (toRow =? fromRow + 2 * direction)
            then
              let* mid := access board (fromRow + direction) fromCol in
              if negb (truthy mid) then Ok true else capture
            else capture
          else capture
      | rook =>
          if (fromRow =? toRow) || (fromCol =? toCol)
          then straightPath fromRow fromCol toRow toCol
          else Ok false
      | knight =>
          Ok ((rowDiff =? 2) && (colDiff =? 1) || (rowDiff =? 1) && (colDiff =? 2))
      | bishop =>
          if rowDiff =? colDiff
          then diagonalPath fromRow fromCol toRow toCol
          else Ok false
      | queen =>
          if (fromRow =? toRow) || (fromCol =? toCol) || (rowDiff =? colDiff) then
            if (fromRow =? toRow) || (fromCol =? toCol)
            then straightPath fromRow fromCol toRow toCol
            else diagonalPath fromRow fromCol toRow toCol
          else Ok false
      | king => Ok ((rowDiff <=? 1) && (colDiff <=? 1))
      end
  end.

End RuleEngine.

(** The predicate of the program. *)
Definition isValidMove (board : Board) : Z -> Z -> Z -> Z -> result bool :=
  isValidMoveWith get board.

(** The predicate over the checked accessor. *)
Definition isValidMoveChecked (board : Board) : Z -> Z -> Z -> Z -> result bool :=
  isValidMoveWith getChecked board.

(** ** Choosing a move (makeAIMove, lines 158-177) *)

(** [for (let x = 0; x < 8; x++)] *)
Definition range8 : list Z := seqZ 0 8.

(** A loop over [xs] whose body updates an accumulator or throws. *)
Fixpoint forEach {A} (xs : list Z) (body : Z -> A -> result A) (acc : A)
  : result A :=
  match xs with
  | [] => Ok acc
  | x :: xs' => let* acc' := body x acc in forEach xs' body acc'
  end.

(** Lines 158-173.  The program enumerates for ['black'], the side the
    machine plays; the side is a parameter here and [makeAIMove] is the
    instance at [black]. *)
Definition collectMoves (side : PieceColor) (board : Board) : result (list Move) :=
  forEach range8 (fun fromRow aiMoves =>
    forEach range8 (fun fromCol aiMoves =>
      let* piece := get board fromRow fromCol in
      match piece with
      | Some p =>
          if bool_decide (color p = side) then
            forEach range8 (fun toRow aiMoves =>
              forEach range8 (fun toCol aiMoves =>
                let* ok := isValidMove board fromRow fromCol toRow toCol in
                Ok (if ok then aiMoves ++ [(fromRow, fromCol, toRow, toCol)]
                    else aiMoves))
              aiMoves)
            aiMoves
          else Ok aiMoves
      | None => Ok aiMoves
      end) aiMoves) [].

(** [Math.floor(u * n)] for the value [u] that [Math.random()] returned,
    computed over the rationals. *)
Definition randomIndex (u : Q) (n : nat) : Z :=
  Qfloor (u * inject_Z (Z.of_nat n)).

(** Lines 175-177: no move when the list is empty, otherwise the entry at the
    random index; destructuring [undefined] throws. *)
Definition pickMove (u : Q) (aiMoves : list Move) : result (option Move) :=
  if (0 <? length aiMoves)%nat then
    match lookupZ aiMoves (randomIndex u (length aiMoves)) with
    | Some randomMove => Ok (Some randomMove)
    | None => Err TypeError
    end
  else Ok None.

Definition chooseMove (side : PieceColor) (u : Q) (board : Board)
  : result (option Move) :=
  let* aiMoves := collectMoves side board in
  pickMove u aiMoves.

(** ** Applying a move (lines 179-181 and 199-202) *)

(** [row[c] = v] on the elements of an array: an index past the end extends
    the array, the gap reading as [undefined].  A negative index names a
    property that is no element; the elements stay as they are. *)
Definition setCell (row : Row) (c : Z) (v : option Piece) : Row :=
  if c <? 0 then row
  else if c <? Z.of_nat (length row) then <[Z.to_nat c := v]> row
  else row ++ replicate (Z.to_nat c - length row) None ++ [v].

(** [board[r][c] = v] on a board held by value. *)
Definition set (board : Board) (r c : Z) (v : option Piece) : result Board :=
  match lookupZ board r with
  | None => Err TypeError
  | Some row => Ok (<[Z.to_nat r := setCell row c v]> board)
  end.

(** The three statements on the value of the board: the copy has the value
    of the original. *)
Definition applyMove (board : Board) (m : Move) : result Board :=
  let '(fromRow, fromCol, toRow, toCol) := m in
  let newBoard := board in
  let* moved := get newBoard fromRow fromCol in
  let* newBoard := set newBoard toRow toCol moved in
  set newBoard fromRow fromCol None.

(** makeAIMove (lines 158-183) on the value of the board: the machine plays
    black; the new board when a move was found. *)
Definition makeAIMove (u : Q) (board : Board) : result (option Board) :=
  let* randomMove := chooseMove black u board in
  match randomMove with
  | Some m => let* newBoard := applyMove board m in Ok (Some newBoard)
  | None => Ok None
  end.

(** *** The same statements on a store of arrays

    Rows are arrays of a store and are written in place; an outer array is
    built once and never written, so a board is the list of the references
    of its rows. *)

Abbreviation loc := positive.
Abbreviation BoardRef := (list loc).

(** [[...row]]: a new array with the elements of [row]. *)
Definition alloc (st : gmap loc Row) (row : Row) : loc * gmap loc Row :=
  let l := fresh (dom st) in (l, <[l := row]> st).

(** [board.map(row => [...row])] *)
Fixpoint copyRows (st : gmap loc Row) (rows : BoardRef)
  : result (BoardRef * gmap loc Row) :=
  match rows with
  | [] => Ok ([], st)
  | l :: rest =>
      match st !! l with
      | None => Err Dangling
      | Some row =>
          let '(l', st1) := alloc st row in
          let* copied := copyRows st1 rest in
          Ok (l' :: fst copied, snd copied)
      end
  end.

(** [b[r][c]] *)
Definition readCell (st : gmap loc Row) (b : BoardRef) (r c : Z)
  : result (option Piece) :=
  match lookupZ b r with
  | None => Err TypeError
  | Some l =>
      match st !! l with
      | None => Err Dangling
      | Some row => Ok (default None (lookupZ row c))
      end
  end.

(** [b[r][c] = v] *)
Definition writeCell (st : gmap loc Row) (b : BoardRef) (r c : Z)
    (v : option Piece) : result (gmap loc Row) :=
  match lookupZ b r with
  | None => Err TypeError
  | Some l =>
      match st !! l with
      | None => Err Dangling
      | Some row => Ok (<[l := setCell row c v]> st)
      end
  end.

(** Lines 179-181: the reference of the new board and the store after. *)
Definition applyMoveStore (st : gmap loc Row) (board : BoardRef) (m : Move)
  : result (BoardRef * gmap loc Row) :=
  let '(fromRow, fromCol, toRow, toCol) := m in
  let* copied := copyRows st board in
  let '(newBoard, st1) := copied in
  let* moved := readCell st1 newBoard fromRow fromCol in
  let* st2 := writeCell st1 newBoard toRow toCol moved in
  let* st3 := writeCell st2 newBoard fromRow fromCol None in
  Ok (newBoard, st3).

(** The value of the board that [b] refers to. *)
Fixpoint deref (st : gmap loc Row) (b : BoardRef) : result Board :=
  match b with
  | [] => Ok []
  | l :: rest =>
      match st !! l with
      | None => Err Dangling
      | Some row => let* rows := deref st rest in Ok (row :: rows)
      end
  end.

(** Storing a board row by row in new arrays. *)
Fixpoint store (st : gmap loc Row) (board : Board) : BoardRef * gmap loc Row :=
  match board with
  | [] => ([], st)
  | row :: rest =>
      let '(l, st1) := alloc st row in
      let '(ls, st2) := store st1 rest in
      (l :: ls, st2)
  end.

(** ** Well-formed inputs *)

Definition inRange (x : Z) : Prop := 0 <= x < 8.

Definition wfBoard (board : Board) : Prop :=
  length board = 8%nat /\ Forall (fun row => length row = 8%nat) board.

(** ** The full enumeration of legal moves

    Every move whose origin is on the grid and holds a piece of [side] and
    that the rule engine accepts, origins and destinations in reading
    order. *)

Definition accepted (board : Board) (fromRow fromCol toRow toCol : Z) : bool :=
  match isValidMove board fromRow fromCol toRow toCol with
  | Ok true => true
  | _ => false
  end.

Definition ownedBy (side : PieceColor) (board : Board) (r c : Z) : bool :=
  match get board r c with
  | Ok (Some p) => bool_decide (color p = side)
  | _ => false
  end.

Definition legalMoves (side : PieceColor) (board : Board) : list Move :=
  flat_map (fun fromRow =>
    flat_map (fun fromCol =>
      if ownedBy side board fromRow fromCol then
        flat_map (fun toRow =>
          flat_map (fun toCol =>
            if accepted board fromRow fromCol toRow toCol
            then [(fromRow, fromCol, toRow, toCol)] else [])
          range8) range8
      else []) range8) range8.

(** What [Math.random()] returns. *)
Definition unitInterval (u : Q) : Prop := (0 <= u /\ u < 1)%Q.

(** ** The line of travel *)

(** The geometry test that opens the case of each sliding piece. *)
Definition lineGeometry (t : PieceType) (fromRow fromCol toRow toCol : Z) : Prop :=
  match t with
  | rook => fromRow = toRow \/ fromCol = toCol
  | bishop => Z.abs (toRow - fromRow) = Z.abs (toCol - fromCol)
  | queen => fromRow = toRow \/ fromCol = toCol
             \/ Z.abs (toRow - fromRow) = Z.abs (toCol - fromCol)
  | _ => False
  end.

(** [(r, c)] lies strictly between the two ends of the move, [k] steps from
    the origin towards the destination. *)
Definition between (fromRow fromCol toRow toCol r c : Z) : Prop :=
  exists k,
    0 < k < Z.max (Z.abs (toRow - fromRow)) (Z.abs (toCol - fromCol))
    /\ r = fromRow + k * Z.sgn (toRow - fromRow)
    /\ c = fromCol + k * Z.sgn (toCol - fromCol).

(** Every square of the grid reads without error. *)
Definition readable (access : Board -> Z -> Z -> result (option Piece))
    (board : Board) : Prop :=
  forall r c, inRange r -> inRange c -> exists x, access board r c = Ok x.

(** ** What a move does to a board *)

(** [board'] is [board] with the piece of the origin on the destination and
    nothing on the origin. *)
Definition relocates (board board' : Board) (m : Move) : Prop :=
  let '(fromRow, fromCol, toRow, toCol) := m in
  get board' toRow toCol = get board fromRow fromCol
  /\ get board' fromRow fromCol = Ok None
  /\ forall r c, inRange r -> inRange c ->
       (r, c) <> (fromRow, fromCol) -> (r, c) <> (toRow, toCol) ->
       get board' r c = get board r c.

(** Applying [m] to the board that [board] refers to builds a new board in
    new arrays, with the piece relocated, and leaves every array the store
    held, so also the board passed in, as it was. *)
Definition functionalUpdate (st : gmap loc Row) (board : BoardRef) (m : Move)
  : Prop :=
  exists old newBoard st' new,
    deref st board = Ok old
    /\ applyMoveStore st board m = Ok (newBoard, st')
    /\ deref st' newBoard = Ok new
    /\ relocates old new m
    /\ deref st' board = Ok old
    /\ (forall l row, st !! l = Some row -> st' !! l = Some row)
    /\ (forall l, l ∈ newBoard -> st !! l = None).

(** ** Positions used as examples *)

(** The board after a move, left as it was when the move throws. *)
Definition moved (board : Board) (m : Move) : Board :=
  match applyMove board m with
  | Ok newBoard => newBoard
  | Err _ => board
  end.

(** The white king's pawn two squares forward. *)
Definition afterE4 : Board := moved initialBoard (6, 4, 4, 4).

(** A black knight dropped in front of the white king's pawn. *)
Definition knightOnE3 : Board := moved initialBoard (0, 1, 5, 4).

(** A black pawn within reach of the white king's pawn. *)
Definition pawnOnD3 : Board := moved initialBoard (1, 3, 5, 3).

(** A board with no piece, and pieces put on a board. *)
Definition emptyBoard : Board := replicate 8 (replicate 8 None).

Definition place (board : Board) (r c : Z) (p : Piece) : Board :=
  match set board r c (Some p) with
  | Ok board' => board'
  | Err _ => board
  end.

(** A white knight alone in the middle of the board. *)
Definition loneKnight : Board := place emptyBoard 4 4 (mkPiece knight white).

(** A black bishop with a pawn of its own on one of its diagonals. *)
Definition hemmedBishop : Board :=
  place (place emptyBoard 0 2 (mkPiece bishop black)) 1 3 (mkPiece pawn black).

(** The starting position in a store of its own. *)
Definition initialStore : BoardRef * gmap loc Row := store ∅ initialBoard.

(** ** Shapes of the accepted moves *)

(** Every square strictly between the two ends of the move is empty. *)
Definition pathClear (board : Board) (fromRow fromCol toRow toCol : Z) : Prop :=
  forall r c, between fromRow fromCol toRow toCol r c -> get board r c = Ok None.

(** The destination does not hold a piece of the colour of [piece]. *)
Definition notOwn (board : Board) (piece : Piece) (toRow toCol : Z) : Prop :=
  forall target, get board toRow toCol = Ok (Some target) ->
                 color target <> color piece.

(** The three moves of a pawn: one step ahead onto an empty square, two
    steps ahead from the starting rank over an empty square onto an empty
    square, one step ahead and one aside onto a piece of the other colour. *)
Definition pawnShape (board : Board) (piece : Piece)
    (fromRow fromCol toRow toCol : Z) : Prop :=
  let d := directionOf (color piece) in
  (toCol = fromCol /\ toRow = fromRow + d /\ get board toRow toCol = Ok None)
  \/ (toCol = fromCol /\ fromRow = startRowOf (color piece)
      /\ toRow = fromRow + 2 * d
      /\ get board (fromRow + d) fromCol = Ok None
      /\ get board toRow toCol = Ok None)
  \/ (Z.abs (toCol - fromCol) = 1 /\ toRow = fromRow + d
      /\ exists target, get board toRow toCol = Ok (Some target)
                        /\ color target <> color piece).

(** ** Counting pieces *)

Definition holds (P : Piece -> bool) (cell : option Piece) : nat :=
  match cell with
  | Some p => if P p then 1 else 0
  | None => 0
  end.

(** The number of pieces of the board that satisfy [P]. *)
Definition countPieces (P : Piece -> bool) (board : Board) : nat :=
  sum_list (map (fun row => sum_list (map (holds P) row)) board).

(** ** The other side of the table *)

Definition opposite (c : PieceColor) : PieceColor :=
  match c with white => black | black => white end.

Definition mirrorPiece (p : Piece) : Piece :=
  {| type := type p; color := opposite (color p) |}.

(** The board seen from the other side: rows in reverse order and colours
    exchanged. *)
Definition mirror (board : Board) : Board :=
  reverse (map (map (option_map mirrorPiece)) board).

(** ** The page: state, handlers and timers (lines 47-62, 155-240, 362-365)

    The component's state variables form a record.  A handler set on a
    button is the one of the latest render and reads the current state; a
    callback passed to [setTimeout] is a closure of the render that created
    it and reads the board of that render.  No timer is ever cleared. *)

Inductive GameScreen := menuScreen | gameScreen | statsScreen.
Inductive Difficulty := easy | medium | hard.

Record GameStats := mkStats { wins : Z; losses : Z; draws : Z }.

(** The counters are numbers of the page taken as integers.  From [-2^53]
    to [2^53] the numbers count one by one, and [+ 1] on a counter is the
    addition of the page; beyond, the page's addition no longer reaches the
    next integer. *)
Definition maxExact : Z := 9007199254740992.

Definition countsExactly (x : Z) : Prop := - maxExact <= x <= maxExact.

Record State := mkState {
  screen : GameScreen;
  board : Board;
  selectedSquare : option (Z * Z);
  currentPlayer : PieceColor;
  difficulty : Difficulty;
  stats : GameStats;
  moveCount : Z;
  thinking : bool
}.

(** The callbacks waiting in [setTimeout], each with the board its closure
    holds. *)
Inductive Timer :=
| CallMakeAIMove (snapshot : Board)   (* line 215, 300 ms *)
| AIMoveTimeout (snapshot : Board)    (* line 157, 500 ms *)
| WinTimeout.                         (* line 210, 500 ms *)

Definition setSelectedSquare (sq : option (Z * Z)) (st : State) : State :=
  {| screen := screen st; board := board st; selectedSquare := sq;
     currentPlayer := currentPlayer st; difficulty := difficulty st;
     stats := stats st; moveCount := moveCount st; thinking := thinking st |}.

Definition setThinking (b : bool) (st : State) : State :=
  {| screen := screen st; board := board st;
     selectedSquare := selectedSquare st;
     currentPlayer := currentPlayer st; difficulty := difficulty st;
     stats := stats st; moveCount := moveCount st; thinking := b |}.

Definition setScreen (s : GameScreen) (st : State) : State :=
  {| screen := s; board := board st; selectedSquare := selectedSquare st;
     currentPlayer := currentPlayer st; difficulty := difficulty st;
     stats := stats st; moveCount := moveCount st; thinking := thinking st |}.

Definition setStats (f : GameStats -> GameStats) (st : State) : State :=
  {| screen := screen st; board := board st;
     selectedSquare := selectedSquare st;
     currentPlayer := currentPlayer st; difficulty := difficulty st;
     stats := f (stats st); moveCount := moveCount st;
     thinking := thinking st |}.

(** [clickedPiece && clickedPiece.color === currentPlayer] *)
Definition ownPiece (st : State) (clickedPiece : option Piece) : bool :=
  match clickedPiece with
  | Some p => bool_decide (color p = currentPlayer st)
  | None => false
  end.

(** [capturedPiece && capturedPiece.type === 'king'] *)
Definition isKing (capturedPiece : option Piece) : bool :=
  match capturedPiece with
  | Some p => bool_decide (type p = king)
  | None => false
  end.

(** handleSquareClick (lines 192-231): the state after the click and the
    timers it starts. *)
Definition handleSquareClick (st : State) (row col : Z)
  : result (State * list Timer) :=
  if negb (bool_decide (currentPlayer st = white)) || thinking st
  then Ok (st, [])
  else
    match selectedSquare st with
    | Some (selectedRow, selectedCol) =>
        let* valid := isValidMove (board st) selectedRow selectedCol row col in
        if valid then
          let* capturedPiece := get (board st) row col in
          let* newBoard :=
            applyMove (board st) (selectedRow, selectedCol, row, col) in
          let st' :=
            {| screen := screen st; board := newBoard; selectedSquare := None;
               currentPlayer := black; difficulty := difficulty st;
               stats := stats st; moveCount := moveCount st + 1;
               thinking := thinking st |} in
          if isKing capturedPiece then Ok (st', [WinTimeout])
          else Ok (st', [CallMakeAIMove (board st)])
        else
          let* clickedPiece := get (board st) row col in
          if ownPiece st clickedPiece
          then Ok (setSelectedSquare (Some (row, col)) st, [])
          else Ok (setSelectedSquare None st, [])
    | None =>
        let* clickedPiece := get (board st) row col in
        if ownPiece st clickedPiece
        then Ok (setSelectedSquare (Some (row, col)) st, [])
        else Ok (st, [])
    end.

(** makeAIMove as it is called (lines 155-157, 190): it shows the machine
    thinking and leaves the work to a timer. *)
Definition callMakeAIMove (snapshot : Board) (st : State) : State * list Timer :=
  (setThinking true st, [AIMoveTimeout snapshot]).

(** The callback of makeAIMove (lines 158-188), [u] being what
    [Math.random()] returns: the move is found on, and applied to, the board
    of the closure. *)
Definition aiMoveTimeout (u : Q) (snapshot : Board) (st : State) : result State :=
  let* reply := makeAIMove u snapshot in
  match reply with
  | Some newBoard =>
      Ok {| screen := screen st; board := newBoard;
            selectedSquare := selectedSquare st;
            currentPlayer := white; difficulty := difficulty st;
            stats := stats st; moveCount := moveCount st + 1;
            thinking := false |}
  | None => Ok (setThinking false st)
  end.

(** Lines 210-213. *)
Definition winTimeout (st : State) : State :=
  setScreen statsScreen
    (setStats (fun prev => {| wins := wins prev + 1; losses := losses prev;
                              draws := draws prev |}) st).

(** startNewGame (lines 233-240) *)
Definition startNewGame (newDifficulty : Difficulty) (st : State) : State :=
  {| screen := gameScreen; board := initialBoard; selectedSquare := None;
     currentPlayer := white; difficulty := newDifficulty;
     stats := stats st; moveCount := 0; thinking := thinking st |}.

(** The button that gives the game up (lines 362-365). *)
Definition resign (st : State) : State :=
  setScreen menuScreen
    (setStats (fun prev => {| wins := wins prev; losses := losses prev + 1;
                              draws := draws prev |}) st).

(** What can happen to the page: a click on a square, a timer going off,
    and the buttons. *)
Inductive Event :=
| Click (row col : Z)
| Fire (i : nat) (u : Q)
| StartNewGame (newDifficulty : Difficulty)
| Resign
| SetScreen (s : GameScreen).

(** One event on the state and the waiting timers; firing a timer that is
    not there does nothing. *)
Definition step (c : State * list Timer) (e : Event)
  : result (State * list Timer) :=
  let '(st, timers) := c in
  match e with
  | Click row col =>
      let* r := handleSquareClick st row col in
      Ok (fst r, timers ++ snd r)
  | Fire i u =>
      match timers !! i with
      | None => Ok c
      | Some (CallMakeAIMove snapshot) =>
          let r := callMakeAIMove snapshot st in
          Ok (fst r, delete i timers ++ snd r)
      | Some (AIMoveTimeout snapshot) =>
          let* st' := aiMoveTimeout u snapshot st in
          Ok (st', delete i timers)
      | Some WinTimeout => Ok (winTimeout st, delete i timers)
      end
  | StartNewGame d => Ok (startNewGame d st, timers)
  | Resign => Ok (resign st, timers)
  | SetScreen s => Ok (setScreen s st, timers)
  end.

Fixpoint run (c : State * list Timer) (es : list Event)
  : result (State * list Timer) :=
  match es with
  | [] => Ok c
  | e :: es' => let* c' := step c e in run c' es'
  end.

(** The snapshot of a timer. *)
Definition snapshotOf (t : Timer) : option Board :=
  match t with
  | CallMakeAIMove snapshot | AIMoveTimeout snapshot => Some snapshot
  | WinTimeout => None
  end.

(** Boards are 8x8 and the selected square is on the grid. *)
Definition wfConfig (c : State * list Timer) : Prop :=
  wfBoard (board (fst c))
  /\ (forall r c', selectedSquare (fst c) = Some (r, c') -> inRange r /\ inRange c')
  /\ Forall (fun t => forall b, snapshotOf t = Some b -> wfBoard b) (snd c).

(** Clicks land on squares of the grid and [Math.random()] in [0, 1). *)
Definition okEvent (e : Event) : Prop :=
  match e with
  | Click row col => inRange row /\ inRange col
  | Fire _ u => unitInterval u
  | _ => True
  end.

(** The resignations among the events. *)
Fixpoint resignations (es : list Event) : Z :=
  match es with
  | [] => 0
  | Resign :: es' => 1 + resignations es'
  | _ :: es' => resignations es'
  end.

(** The state of the first render (lines 48-58), [saved] being the counters
    read from the local storage. *)
Definition initialState (saved : GameStats) : State :=
  {| screen := menuScreen; board := initialBoard; selectedSquare := None;
     currentPlayer := white; difficulty := medium; stats := saved;
     moveCount := 0; thinking := false |}.

(** *** States used as examples *)

Definition noStats : GameStats := {| wins := 0; losses := 0; draws := 0 |}.

(** White to move on [b] with the square [sq] selected. *)
Definition stateOn (b : Board) (sq : Z * Z) : State :=
  {| screen := gameScreen; board := b; selectedSquare := Some sq;
     currentPlayer := white; difficulty := medium; stats := noStats;
     moveCount := 0; thinking := false |}.

(** The white king at the end of the column of a black rook, and a white
    pawn to move. *)
Definition kingInReach : Board :=
  place (place (place emptyBoard 7 0 (mkPiece king white))
               0 0 (mkPiece rook black))
        6 4 (mkPiece pawn white).


(** ** Proof steps *)

(** Decide the comparisons of the goal, dropping the cases the context
    excludes. *)
Ltac decide_tests :=
  repeat match goal with
    | |- context [Z.eqb ?a ?b] => destruct (Z.eqb_spec a b); try lia
    | |- context [Z.ltb ?a ?b] => destruct (Z.ltb_spec a b); try lia
    | |- context [Z.leb ?a ?b] => destruct (Z.leb_spec a b); try lia
    | |- context [Z.gtb ?a ?b] => rewrite (Z.gtb_ltb a b)
    end.

(** The three cases of a sign. *)
Ltac sgn_cases x :=
  let Hs := fresh "Hs" in
  destruct (Z.sgn_spec x) as [[? Hs]|[[? Hs]|[? Hs]]]; rewrite ?Hs.

(** A coordinate given by a numeral is on the grid; a board given by its
    rows is 8x8. *)
Ltac on_grid := unfold inRange; lia.
Ltac board_shape := split; [reflexivity | repeat constructor].

(** * Properties *)

(** ** Reading well-formed boards *)

Lemma lookupZ_Some {A} (l : list A) (i : Z) (x : A) :
  lookupZ l i = Some x <-> 0 <= i /\ l !! Z.to_nat i = Some x.
Proof.
  unfold lookupZ. destruct (Z.ltb_spec i 0); split.
  - discriminate.
  - intros [? _]. lia.
  - auto.
  - intros [_ ?]. assumption.
Qed.

Lemma lookupZ_lt {A} (l : list A) (i : Z) :
  0 <= i < Z.of_nat (length l) -> exists x, lookupZ l i = Some x.
Proof.
  intros Hi. destruct (lookup_lt_is_Some_2 l (Z.to_nat i)) as [x Hx]; [lia|].
  exists x. apply lookupZ_Some. split; [lia | exact Hx].
Qed.

Lemma wfBoard_row (board : Board) (r : Z) :
  wfBoard board -> inRange r ->
  exists row, lookupZ board r = Some row /\ length row = 8%nat.
Proof.
  intros [Hlen Hrows] Hr. unfold inRange in Hr.
  destruct (lookupZ_lt board r) as [row Hrow]; [lia|].
  exists row. split; [exact Hrow|].
  apply lookupZ_Some in Hrow as [_ Hrow].
  rewrite Forall_forall in Hrows. apply Hrows.
  apply list_elem_of_lookup. eauto.
Qed.

(** On a well-formed board a square of the grid reads without error, and the
    checked read agrees. *)
Lemma get_inRange (board : Board) (r c : Z) :
  wfBoard board -> inRange r -> inRange c ->
  exists cell, get board r c = Ok cell /\ getChecked board r c = Ok cell.
Proof.
  intros Hwf Hr Hc. destruct (wfBoard_row board r Hwf Hr) as (row & Hrow & Hlen).
  destruct (lookupZ_lt row c) as [cell Hcell]; [unfold inRange in Hc; lia|].
  exists cell. unfold get, getChecked. rewrite Hrow, Hcell. simpl.
  unfold inRange in *.
  destruct (Z.leb_spec 0 r), (Z.ltb_spec r 8), (Z.leb_spec 0 c), (Z.ltb_spec c 8);
    try lia. auto.
Qed.

Lemma get_total (board : Board) (r c : Z) :
  wfBoard board -> inRange r -> inRange c -> exists cell, get board r c = Ok cell.
Proof.
  intros Hwf Hr Hc. destruct (get_inRange board r c Hwf Hr Hc) as (cell & H & _).
  eauto.
Qed.

Lemma getChecked_get (board : Board) (r c : Z) :
  wfBoard board -> inRange r -> inRange c -> getChecked board r c = get board r c.
Proof.
  intros Hwf Hr Hc. destruct (get_inRange board r c Hwf Hr Hc) as (cell & H1 & H2).
  congruence.
Qed.

Lemma initialBoard_wf : wfBoard initialBoard.
Proof. split; [reflexivity|]. repeat constructor. Qed.

(** ** Occupancy checks made before the geometry *)

(** C9: when the origin square reads as empty, isValidMove returns false, and
    so returns without raising an error, whatever the destination. *)
Theorem empty_origin_rejected (board : Board) (fromRow fromCol toRow toCol : Z) :
  get board fromRow fromCol = Ok None ->
  isValidMove board fromRow fromCol toRow toCol = Ok false.
Proof.
  intros Hfrom. unfold isValidMove, isValidMoveWith. rewrite Hfrom. reflexivity.
Qed.

Lemma empty_origin_rejected_witness :
  get initialBoard 3 3 = Ok None /\ isValidMove initialBoard 3 3 4 4 = Ok false.
Proof.
  split; [reflexivity|]. apply (empty_origin_rejected initialBoard 3 3 4 4).
  reflexivity.
Defined.

(** C2: a destination holding a piece of the colour of the piece at the
    origin is rejected, whatever the kind of the moving piece. *)
Theorem same_color_destination_rejected
    (board : Board) (fromRow fromCol toRow toCol : Z) (piece target : Piece) :
  get board fromRow fromCol = Ok (Some piece) ->
  get board toRow toCol = Ok (Some target) ->
  color target = color piece ->
  isValidMove board fromRow fromCol toRow toCol = Ok false.
Proof.
  intros Hfrom Hto Hcol. unfold isValidMove, isValidMoveWith.
  rewrite Hfrom. simpl. rewrite Hto. simpl.
  rewrite bool_decide_eq_true_2 by exact Hcol. reflexivity.
Qed.

Lemma same_color_destination_rejected_witness :
  isValidMove initialBoard 7 0 6 0 = Ok false.
Proof.
  apply (same_color_destination_rejected initialBoard 7 0 6 0
           (mkPiece rook white) (mkPiece pawn white)); reflexivity.
Defined.

(** C1 as stated fails: the rook on the corner of the starting position is
    refused the move onto its own square. *)
Lemma null_move_rook_counterexample :
  ~ (forall (board : Board) (r c : Z) (piece : Piece),
        get board r c = Ok (Some piece) ->
        type piece = rook \/ type piece = queen ->
        isValidMove board r c r c = Ok true).
Proof.
  intros H.
  specialize (H initialBoard 0 0 (mkPiece rook black) eq_refl (or_introl eq_refl)).
  discriminate H.
Qed.

(** A move from a square onto itself never passes the same-colour test, so
    an accepted move joins two different squares. *)
Lemma accepted_move_not_null (board : Board) (fromRow fromCol toRow toCol : Z) :
  isValidMove board fromRow fromCol toRow toCol = Ok true ->
  (fromRow, fromCol) <> (toRow, toCol).
Proof.
  intros Hv [= <- <-]. unfold isValidMove, isValidMoveWith in Hv.
  destruct (get board fromRow fromCol) as [[p|]|e] eqn:Hp; simpl in Hv;
    try discriminate.
  rewrite bool_decide_eq_true_2 in Hv by reflexivity. discriminate.
Qed.

(** C1, amended: a move from a square onto itself is rejected for a piece of
    any kind, the square holding a piece of the mover's own colour. *)
Theorem null_move_rejected (board : Board) (r c : Z) (piece : Piece) :
  get board r c = Ok (Some piece) ->
  isValidMove board r c r c = Ok false.
Proof.
  intros Hp. unfold isValidMove, isValidMoveWith. rewrite Hp. simpl.
  rewrite bool_decide_eq_true_2 by reflexivity. reflexivity.
Qed.

Lemma null_move_rejected_witness :
  isValidMove initialBoard 7 3 7 3 = Ok false.
Proof.
  apply (null_move_rejected initialBoard 7 3 (mkPiece queen white)). reflexivity.
Defined.

(** ** Pawns *)

(** C4: from its starting rank a pawn may advance one or two squares when
    both squares ahead are empty, may not advance two when the square right
    ahead is occupied, and from any other rank may never advance two. *)
Theorem pawn_straight_advance (board : Board) (col : Z) (piece : Piece) :
  wfBoard board -> inRange col -> type piece = pawn ->
  let d := directionOf (color piece) in
  let s := startRowOf (color piece) in
  (get board s col = Ok (Some piece) ->
     (get board (s + d) col = Ok None ->
      get board (s + 2 * d) col = Ok None ->
      isValidMove board s col (s + d) col = Ok true
      /\ isValidMove board s col (s + 2 * d) col = Ok true)
     /\ (forall q, get board (s + d) col = Ok (Some q) ->
          isValidMove board s col (s + 2 * d) col = Ok false))
  /\ (forall row, inRange row -> inRange (row + 2 * d) -> row <> s ->
       get board row col = Ok (Some piece) ->
       isValidMove board row col (row + 2 * d) col = Ok false).
Proof.
  intros Hwf Hcol Hpawn d s.
  assert (Hd : d = 1 \/ d = -1) by (subst d; destruct (color piece); auto).
  assert (Hin : inRange (s + 2 * d))
    by (subst d s; destruct (color piece); unfold inRange; simpl; lia).
  unfold isValidMove, isValidMoveWith.
  split; [intros Hfrom; split|].
  - intros Hone Htwo. rewrite Hfrom. simpl. fold d s. clearbody d s.
    rewrite Hone, Htwo, Hpawn. simpl.
    split; decide_tests; reflexivity.
  - intros q Hmid.
    destruct (get_total board _ col Hwf Hin Hcol) as [target Htarget].
    rewrite Hfrom. simpl. fold d s. clearbody d s.
    rewrite Htarget, Hmid, Hpawn. simpl.
    destruct (sameColor target piece); [reflexivity|].
    destruct target as [t|]; simpl; decide_tests; reflexivity.
  - intros row Hrow Hto Hne Hfrom.
    destruct (get_total board _ col Hwf Hto Hcol) as [target Htarget].
    rewrite Hfrom. simpl. fold d s. clearbody d s.
    rewrite Htarget, Hpawn. simpl.
    destruct (sameColor target piece); [reflexivity|].
    destruct target as [t|]; simpl; decide_tests; reflexivity.
Qed.

Lemma example_boards_wf : wfBoard afterE4 /\ wfBoard knightOnE3 /\ wfBoard pawnOnD3.
Proof. repeat split; repeat constructor. Qed.

Lemma pawn_straight_advance_witness :
  (isValidMove initialBoard 6 4 5 4 = Ok true
   /\ isValidMove initialBoard 6 4 4 4 = Ok true)
  /\ isValidMove knightOnE3 6 4 4 4 = Ok false
  /\ isValidMove afterE4 4 4 2 4 = Ok false.
Proof.
  assert (Hc : inRange 4) by (unfold inRange; lia).
  destruct example_boards_wf as (Hwf1 & Hwf2 & _).
  split; [|split].
  - apply (pawn_straight_advance initialBoard 4 (mkPiece pawn white)
             initialBoard_wf Hc eq_refl); reflexivity.
  - apply (pawn_straight_advance knightOnE3 4 (mkPiece pawn white)
             Hwf2 Hc eq_refl) with (q := mkPiece knight black); reflexivity.
  - apply (pawn_straight_advance afterE4 4 (mkPiece pawn white)
             Hwf1 Hc eq_refl); unfold inRange; simpl; try lia; reflexivity.
Defined.

(** C5: a pawn's step of one column sideways and one row forward is rejected
    onto an empty square and accepted onto a piece of the other colour. *)
Theorem pawn_diagonal_step
    (board : Board) (fromRow fromCol toCol : Z) (piece : Piece) :
  get board fromRow fromCol = Ok (Some piece) ->
  type piece = pawn ->
  Z.abs (toCol - fromCol) = 1 ->
  let toRow := fromRow + directionOf (color piece) in
  (get board toRow toCol = Ok None ->
   isValidMove board fromRow fromCol toRow toCol = Ok false)
  /\ (forall target, get board toRow toCol = Ok (Some target) ->
       color target <> color piece ->
       isValidMove board fromRow fromCol toRow toCol = Ok true).
Proof.
  intros Hfrom Hpawn Hside toRow. unfold isValidMove, isValidMoveWith.
  rewrite Hfrom. simpl. subst toRow.
  generalize (directionOf (color piece)). intros d. split.
  - intros Hto. rewrite Hto, Hpawn. simpl. decide_tests; reflexivity.
  - intros target Hto Hcol. rewrite Hto, Hpawn. simpl.
    rewrite bool_decide_eq_false_2 by exact Hcol.
    decide_tests; reflexivity.
Qed.

Lemma pawn_diagonal_step_witness :
  isValidMove initialBoard 6 4 5 3 = Ok false
  /\ isValidMove pawnOnD3 6 4 5 3 = Ok true.
Proof.
  split.
  - apply (pawn_diagonal_step initialBoard 6 4 3 (mkPiece pawn white));
      reflexivity.
  - apply (pawn_diagonal_step pawnOnD3 6 4 3 (mkPiece pawn white))
      with (target := mkPiece pawn black); try reflexivity.
    discriminate.
Defined.

(** ** Loops *)

Section ForLoop.
Variable cell : Z -> result (option Piece).

Lemma forLoop_clear (n : nat) (i : Z) :
  (forall k, i <= k < i + Z.of_nat n -> cell k = Ok None) ->
  forLoop n i cell = Ok true.
Proof.
  revert i. induction n as [|n IH]; intros i Hall; [reflexivity|].
  simpl. rewrite Hall by lia. simpl. apply IH. intros k Hk. apply Hall. lia.
Qed.

Lemma forLoop_blocked (n : nat) (i j : Z) (p : Piece) :
  (forall k, i <= k < j -> exists x, cell k = Ok x) ->
  i <= j < i + Z.of_nat n ->
  cell j = Ok (Some p) ->
  forLoop n i cell = Ok false.
Proof.
  revert i. induction n as [|n IH]; intros i Hall Hj Hp; [lia|].
  simpl. destruct (Z.eq_dec i j) as [->|Hne].
  - rewrite Hp. reflexivity.
  - destruct (Hall i) as [x Hx]; [lia|]. rewrite Hx. simpl.
    destruct (truthy x); [reflexivity|].
    apply IH; [|lia|exact Hp]. intros k Hk. apply Hall. lia.
Qed.

Lemma forLoop_total (n : nat) (i : Z) :
  (forall k, i <= k < i + Z.of_nat n -> exists x, cell k = Ok x) ->
  exists v, forLoop n i cell = Ok v.
Proof.
  revert i. induction n as [|n IH]; intros i Hall; [simpl; eauto|].
  simpl. destruct (Hall i) as [x Hx]; [lia|]. rewrite Hx. simpl.
  destruct (truthy x); [eauto|]. apply IH. intros k Hk. apply Hall. lia.
Qed.
End ForLoop.

Lemma forLoop_ext (cell cell' : Z -> result (option Piece)) (n : nat) (i : Z) :
  (forall k, i <= k < i + Z.of_nat n -> cell k = cell' k) ->
  forLoop n i cell = forLoop n i cell'.
Proof.
  revert i. induction n as [|n IH]; intros i Hall; [reflexivity|].
  simpl. rewrite Hall by lia. destruct (cell' i) as [x|e]; [|reflexivity].
  simpl. destruct (truthy x); [reflexivity|].
  apply IH. intros k Hk. apply Hall. lia.
Qed.

Lemma forLoop_shift (cell : Z -> result (option Piece)) (n : nat) (i : Z) :
  forLoop n (i + 1) cell = forLoop n i (fun k => cell (k + 1)).
Proof.
  revert i. induction n as [|n IH]; intros i; [reflexivity|].
  simpl. destruct (cell (i + 1)) as [x|e]; [|reflexivity].
  simpl. destruct (truthy x); [reflexivity|]. apply IH.
Qed.

(** A [while] loop that is [m] diagonal steps short of its target square runs
    as the [for] loop over those [m] squares, given fuel for [m + 1] tests. *)
Lemma whileLoop_forLoop (access : Board -> Z -> Z -> result (option Piece))
    (board : Board) (m fuel : nat) (toRow toCol rowDir colDir r c : Z) :
  rowDir = 1 \/ rowDir = -1 ->
  colDir = 1 \/ colDir = -1 ->
  toRow = r + Z.of_nat m * rowDir ->
  toCol = c + Z.of_nat m * colDir ->
  (m < fuel)%nat ->
  whileLoop access board fuel toRow toCol rowDir colDir r c =
  forLoop m 0 (fun k => access board (r + k * rowDir) (c + k * colDir)).
Proof.
  intros Hr Hc. revert fuel r c.
  induction m as [|m IH]; intros fuel r c HtoR HtoC Hfuel;
    (destruct fuel as [|fuel]; [lia|]); simpl.
  - replace (r =? toRow) with true by (symmetry; apply Z.eqb_eq; lia).
    reflexivity.
  - replace (r =? toRow) with false
      by (symmetry; apply Z.eqb_neq; destruct Hr; subst rowDir; lia).
    replace (c =? toCol) with false
      by (symmetry; apply Z.eqb_neq; destruct Hc; subst colDir; lia).
    simpl. rewrite Z.mul_0_l, !Z.add_0_r.
    destruct (access board r c) as [x|e]; [|reflexivity]. simpl.
    destruct (truthy x); [reflexivity|].
    rewrite IH by (destruct Hr, Hc; subst rowDir colDir; lia).
    rewrite (forLoop_shift _ m 0).
    apply forLoop_ext. intros k _. destruct Hr, Hc; subst rowDir colDir; f_equal; lia.
Qed.

(** ** Paths of the sliding pieces *)

Lemma get_readable (board : Board) : wfBoard board -> readable get board.
Proof. intros Hwf r c. apply get_total. exact Hwf. Qed.

Lemma getChecked_readable (board : Board) :
  wfBoard board -> readable getChecked board.
Proof.
  intros Hwf r c Hr Hc. rewrite getChecked_get by assumption.
  apply get_total; assumption.
Qed.

Section Paths.
Variables (board : Board) (fromRow fromCol toRow toCol : Z).
Hypothesis Hwf : wfBoard board.
Hypothesis HfromRow : inRange fromRow.
Hypothesis HfromCol : inRange fromCol.
Hypothesis HtoRow : inRange toRow.
Hypothesis HtoCol : inRange toCol.

Lemma straightPath_total (access : Board -> Z -> Z -> result (option Piece)) :
  readable access board ->
  exists v, straightPath access board fromRow fromCol toRow toCol = Ok v.
Proof.
  intros Hread. unfold straightPath, inRange in *.
  decide_tests; apply forLoop_total; intros k Hk; apply Hread;
    unfold inRange; lia.
Qed.

Lemma straightPath_ext (access access' : Board -> Z -> Z -> result (option Piece)) :
  (forall r c, inRange r -> inRange c -> access board r c = access' board r c) ->
  straightPath access board fromRow fromCol toRow toCol =
  straightPath access' board fromRow fromCol toRow toCol.
Proof.
  intros Hagree. unfold straightPath, inRange in *.
  decide_tests; apply forLoop_ext; intros k Hk; apply Hagree;
    unfold inRange; lia.
Qed.

(** The diagonal walk as a bounded loop over the squares strictly between
    the two ends. *)
Lemma diagonalPath_forLoop (access : Board -> Z -> Z -> result (option Piece)) :
  Z.abs (toRow - fromRow) = Z.abs (toCol - fromCol) ->
  fromRow <> toRow ->
  diagonalPath access board fromRow fromCol toRow toCol =
  forLoop (Z.to_nat (Z.abs (toRow - fromRow) - 1)) 1
    (fun k => access board (fromRow + k * Z.sgn (toRow - fromRow))
                           (fromCol + k * Z.sgn (toCol - fromCol))).
Proof.
  intros Hdiag Hne. unfold diagonalPath, inRange in *.
  destruct Hwf as [Hlen _]. rewrite Hlen.
  rewrite (whileLoop_forLoop access board
             (Z.to_nat (Z.abs (toRow - fromRow) - 1))); decide_tests; auto; try lia.
  all: rewrite (forLoop_shift _ _ 0); apply forLoop_ext; intros k _.
  all: repeat first [ rewrite Z.sgn_pos by lia | rewrite Z.sgn_neg by lia ].
  all: f_equal; lia.
Qed.

Lemma diagonalPath_total (access : Board -> Z -> Z -> result (option Piece)) :
  readable access board ->
  Z.abs (toRow - fromRow) = Z.abs (toCol - fromCol) ->
  fromRow <> toRow ->
  exists v, diagonalPath access board fromRow fromCol toRow toCol = Ok v.
Proof.
  intros Hread Hdiag Hne. rewrite diagonalPath_forLoop by assumption.
  apply forLoop_total. intros k Hk. unfold inRange in *.
  apply Hread; unfold inRange;
    sgn_cases (toRow - fromRow); sgn_cases (toCol - fromCol); lia.
Qed.

Lemma diagonalPath_ext (access access' : Board -> Z -> Z -> result (option Piece)) :
  (forall r c, inRange r -> inRange c -> access board r c = access' board r c) ->
  Z.abs (toRow - fromRow) = Z.abs (toCol - fromCol) ->
  fromRow <> toRow ->
  diagonalPath access board fromRow fromCol toRow toCol =
  diagonalPath access' board fromRow fromCol toRow toCol.
Proof.
  intros Hagree Hdiag Hne. rewrite !diagonalPath_forLoop by assumption.
  apply forLoop_ext. intros k Hk. unfold inRange in *.
  apply Hagree; unfold inRange;
    sgn_cases (toRow - fromRow); sgn_cases (toCol - fromCol); lia.
Qed.

Lemma straightPath_blocked (r c : Z) (q : Piece) :
  fromRow = toRow \/ fromCol = toCol ->
  between fromRow fromCol toRow toCol r c ->
  get board r c = Ok (Some q) ->
  straightPath get board fromRow fromCol toRow toCol = Ok false.
Proof.
  intros Hline (k & Hk & -> & ->). revert Hk.
  unfold straightPath, inRange in *.
  sgn_cases (toRow - fromRow); sgn_cases (toCol - fromCol);
    intros Hk Hq; try lia;
    rewrite ?Z.mul_0_r, ?Z.add_0_r in Hq; decide_tests;
    (eapply forLoop_blocked with (p := q); [ | | exact Hq ]); try lia;
    intros j Hj; apply get_total; unfold inRange; auto; lia.
Qed.

Lemma diagonalPath_blocked (r c : Z) (q : Piece) :
  Z.abs (toRow - fromRow) = Z.abs (toCol - fromCol) ->
  fromRow <> toRow ->
  between fromRow fromCol toRow toCol r c ->
  get board r c = Ok (Some q) ->
  diagonalPath get board fromRow fromCol toRow toCol = Ok false.
Proof.
  intros Hdiag Hne (k & Hk & -> & ->) Hq.
  rewrite diagonalPath_forLoop by assumption.
  (eapply forLoop_blocked with (p := q); [ | | exact Hq ]); [|lia].
  intros j Hj. unfold inRange in *.
  apply get_total; unfold inRange; auto;
    sgn_cases (toRow - fromRow); sgn_cases (toCol - fromCol); lia.
Qed.
End Paths.

(** C3: a rook, bishop or queen whose move has the geometry of its kind is
    refused as soon as a square strictly between origin and destination, on
    the line of travel, holds a piece. *)
Theorem sliding_piece_obstructed
    (board : Board) (fromRow fromCol toRow toCol r c : Z) (piece blocker : Piece) :
  wfBoard board ->
  inRange fromRow -> inRange fromCol -> inRange toRow -> inRange toCol ->
  get board fromRow fromCol = Ok (Some piece) ->
  lineGeometry (type piece) fromRow fromCol toRow toCol ->
  between fromRow fromCol toRow toCol r c ->
  get board r c = Ok (Some blocker) ->
  isValidMove board fromRow fromCol toRow toCol = Ok false.
Proof.
  intros Hwf HfR HfC HtR HtC Hfrom Hgeo Hbetween Hblock.
  destruct (get_total board toRow toCol Hwf HtR HtC) as [target Htarget].
  unfold isValidMove, isValidMoveWith. rewrite Hfrom. simpl.
  rewrite Htarget. simpl. destruct (sameColor target piece); [reflexivity|].
  destruct (type piece); simpl in Hgeo; try contradiction.
  - (* queen *)
    destruct (Z.eqb_spec fromRow toRow) as [Hrow|Hrow];
      [|destruct (Z.eqb_spec fromCol toCol) as [Hcol|Hcol]]; simpl.
    + eapply straightPath_blocked; eauto.
    + eapply straightPath_blocked; eauto.
    + replace (Z.abs (toRow - fromRow) =? Z.abs (toCol - fromCol)) with true
        by (symmetry; apply Z.eqb_eq; tauto).
      eapply diagonalPath_blocked; eauto. tauto.
  - (* rook *)
    replace ((fromRow =? toRow) || (fromCol =? toCol)) with true
      by (symmetry; apply orb_true_iff; rewrite !Z.eqb_eq; exact Hgeo).
    eapply straightPath_blocked; eauto.
  - (* bishop *)
    rewrite (proj2 (Z.eqb_eq _ _) Hgeo).
    destruct (Z.eq_dec fromRow toRow) as [Hrow|Hrow].
    + destruct Hbetween as (k & Hk & _). lia.
    + eapply diagonalPath_blocked; eauto.
Qed.

Lemma sliding_piece_obstructed_witness :
  isValidMove initialBoard 0 2 2 4 = Ok false
  /\ isValidMove initialBoard 7 0 4 0 = Ok false
  /\ isValidMove initialBoard 7 3 7 6 = Ok false.
Proof.
  assert (H0 : inRange 0) by (unfold inRange; lia).
  assert (H2 : inRange 2) by (unfold inRange; lia).
  assert (H3 : inRange 3) by (unfold inRange; lia).
  assert (H4 : inRange 4) by (unfold inRange; lia).
  assert (H6 : inRange 6) by (unfold inRange; lia).
  assert (H7 : inRange 7) by (unfold inRange; lia).
  split; [|split].
  - apply (sliding_piece_obstructed initialBoard 0 2 2 4 1 3
             (mkPiece bishop black) (mkPiece pawn black) initialBoard_wf);
      auto; try reflexivity.
    exists 1. simpl. lia.
  - apply (sliding_piece_obstructed initialBoard 7 0 4 0 6 0
             (mkPiece rook white) (mkPiece pawn white) initialBoard_wf);
      auto; try reflexivity.
    + simpl. auto.
    + exists 1. simpl. lia.
  - apply (sliding_piece_obstructed initialBoard 7 3 7 6 7 5
             (mkPiece queen white) (mkPiece bishop white) initialBoard_wf);
      auto; try reflexivity.
    + simpl. auto.
    + exists 2. simpl. lia.
Defined.

(** ** The loops always stop *)

Lemma get_Ok_row (board : Board) (r c : Z) (x : option Piece) :
  get board r c = Ok x -> 0 <= r < Z.of_nat (length board).
Proof.
  unfold get. destruct (lookupZ board r) as [row|] eqn:Hrow; [|discriminate].
  intros _. apply lookupZ_Some in Hrow as [Hr Hrow].
  apply lookup_lt_Some in Hrow. lia.
Qed.

Lemma get_Err (board : Board) (r c : Z) (e : error) :
  get board r c = Err e -> e = TypeError.
Proof.
  unfold get. destruct (lookupZ board r); [discriminate|]. congruence.
Qed.

Lemma forLoop_fuel (cell : Z -> result (option Piece)) (n : nat) (i : Z) :
  (forall k, cell k <> Err OutOfFuel) -> forLoop n i cell <> Err OutOfFuel.
Proof.
  intros Hcell. revert i. induction n as [|n IH]; intros i; [discriminate|].
  simpl. destruct (cell i) as [x|e] eqn:Hx; simpl.
  - destruct (truthy x); [discriminate | apply IH].
  - intros [= ->]. exact (Hcell i Hx).
Qed.

(** The row index moves by one towards an edge of the board at every round,
    and the read throws beyond the edge. *)
Lemma whileLoop_fuel (board : Board) (toRow toCol rowDir colDir : Z) :
  rowDir = 1 \/ rowDir = -1 ->
  forall (fuel : nat) (r c : Z),
    (0 < fuel)%nat ->
    (0 <= r < Z.of_nat (length board) ->
     (if rowDir =? 1 then Z.of_nat (length board) - r else r + 1)
     < Z.of_nat fuel) ->
    whileLoop get board fuel toRow toCol rowDir colDir r c <> Err OutOfFuel.
Proof.
  intros Hdir. induction fuel as [|fuel IH]; intros r c Hpos Hm; [lia|].
  simpl. destruct (negb (r =? toRow) && negb (c =? toCol)); [|discriminate].
  destruct (get board r c) as [x|e] eqn:Hx; simpl.
  - apply get_Ok_row in Hx. specialize (Hm Hx).
    destruct (truthy x); [discriminate|].
    apply IH; destruct Hdir; subst rowDir; simpl in *; lia.
  - apply get_Err in Hx. subst e. discriminate.
Qed.

(** Fuel beyond what a run needs does not change its outcome. *)
Lemma whileLoop_more_fuel (board : Board) (toRow toCol rowDir colDir : Z) :
  forall (fuel fuel' : nat) (r c : Z),
    whileLoop get board fuel toRow toCol rowDir colDir r c <> Err OutOfFuel ->
    (fuel <= fuel')%nat ->
    whileLoop get board fuel' toRow toCol rowDir colDir r c
    = whileLoop get board fuel toRow toCol rowDir colDir r c.
Proof.
  induction fuel as [|fuel IH]; intros fuel' r c Hrun Hle;
    [contradiction Hrun; reflexivity|].
  destruct fuel' as [|fuel']; [lia|]. simpl in *.
  destruct (negb (r =? toRow) && negb (c =? toCol)); [|reflexivity].
  destruct (get board r c) as [x|e]; simpl in *; [|reflexivity].
  destruct (truthy x); [reflexivity|]. apply IH; [exact Hrun | lia].
Qed.

Lemma diagonalPath_fuel (board : Board) (fromRow fromCol toRow toCol : Z) :
  diagonalPath get board fromRow fromCol toRow toCol <> Err OutOfFuel.
Proof.
  unfold diagonalPath. apply whileLoop_fuel.
  - destruct (toRow >? fromRow); auto.
  - lia.
  - intros Hr. destruct (toRow >? fromRow); simpl; lia.
Qed.

Lemma get_fuel (board : Board) (r c : Z) : get board r c <> Err OutOfFuel.
Proof.
  destruct (get board r c) as [x|e] eqn:Hx; [discriminate|].
  apply get_Err in Hx. subst e. discriminate.
Qed.

Lemma straightPath_fuel (board : Board) (fromRow fromCol toRow toCol : Z) :
  straightPath get board fromRow fromCol toRow toCol <> Err OutOfFuel.
Proof.
  unfold straightPath.
  destruct (fromRow <? toRow), (fromCol <? toCol), (fromRow =? toRow);
    apply forLoop_fuel; intros k; apply get_fuel.
Qed.

(** Whatever the board and the coordinates, the fuel given to the diagonal
    walk is never used up: [isValidMove] returns or throws. *)
Lemma isValidMove_terminates (board : Board) (fromRow fromCol toRow toCol : Z) :
  isValidMove board fromRow fromCol toRow toCol <> Err OutOfFuel.
Proof.
  unfold isValidMove, isValidMoveWith.
  destruct (get board fromRow fromCol) as [[piece|]|e] eqn:Hfrom; simpl;
    [| discriminate | intros [= ->]; exact (get_fuel _ _ _ Hfrom)].
  destruct (get board toRow toCol) as [target|e] eqn:Hto; simpl;
    [| intros [= ->]; exact (get_fuel _ _ _ Hto)].
  destruct (sameColor target piece); [discriminate|].
  destruct (type piece).
  - discriminate.
  - destruct (_ || _ || _); [|discriminate].
    destruct (_ || _); [apply straightPath_fuel | apply diagonalPath_fuel].
  - destruct (_ || _); [apply straightPath_fuel | discriminate].
  - destruct (_ =? _); [apply diagonalPath_fuel | discriminate].
  - discriminate.
  - simpl.
    destruct (get board (fromRow + directionOf (color piece)) fromCol)
      as [mid|e] eqn:Hmid; simpl.
    + repeat match goal with |- context [if ?b then _ else _] => destruct b end;
        discriminate.
    + apply get_Err in Hmid. subst e.
      repeat match goal with |- context [if ?b then _ else _] => destruct b end;
        discriminate.
Qed.

(** ** Reads stay on the grid *)

Section InGrid.
Variables (board : Board) (fromRow fromCol toRow toCol : Z).
Hypothesis Hwf : wfBoard board.
Hypothesis HfromRow : inRange fromRow.
Hypothesis HfromCol : inRange fromCol.
Hypothesis HtoRow : inRange toRow.
Hypothesis HtoCol : inRange toCol.

(** The square ahead of a pawn on its starting rank is on the grid. *)
Lemma ahead_inRange (c : PieceColor) :
  fromRow = startRowOf c -> inRange (fromRow + directionOf c).
Proof. intros ->. destruct c; unfold inRange; simpl; lia. Qed.

(** A piece that passed the same-colour test is not moving onto its own
    square. *)
Lemma not_null_move (access : Board -> Z -> Z -> result (option Piece))
    (piece : Piece) (target : option Piece) :
  access board fromRow fromCol = Ok (Some piece) ->
  access board toRow toCol = Ok target ->
  sameColor target piece = false ->
  Z.abs (toRow - fromRow) = Z.abs (toCol - fromCol) ->
  fromRow <> toRow.
Proof.
  intros Hfrom Hto Hsame Hdiag Hrow.
  assert (fromCol = toCol) by lia. subst toRow toCol.
  rewrite Hfrom in Hto. injection Hto as <-. simpl in Hsame.
  rewrite bool_decide_eq_true_2 in Hsame by reflexivity. discriminate.
Qed.

(** Two ways of reading that agree on the grid give one verdict. *)
Lemma isValidMoveWith_ext (access access' : Board -> Z -> Z -> result (option Piece)) :
  (forall r c, inRange r -> inRange c -> access board r c = access' board r c) ->
  isValidMoveWith access board fromRow fromCol toRow toCol =
  isValidMoveWith access' board fromRow fromCol toRow toCol.
Proof.
  intros Hagree. unfold isValidMoveWith.
  rewrite <- (Hagree fromRow fromCol), <- (Hagree toRow toCol) by assumption.
  destruct (access board fromRow fromCol) as [[piece|]|e] eqn:Hfrom;
    simpl; try reflexivity.
  destruct (access board toRow toCol) as [target|e] eqn:Hto;
    simpl; try reflexivity.
  destruct (sameColor target piece) eqn:Hsame; [reflexivity|].
  destruct (type piece); try reflexivity.
  - (* queen *)
    destruct ((fromRow =? toRow) || (fromCol =? toCol)) eqn:Hstraight; simpl.
    + apply straightPath_ext; assumption.
    + destruct (Z.eqb_spec (Z.abs (toRow - fromRow)) (Z.abs (toCol - fromCol)));
        [|reflexivity].
      apply diagonalPath_ext; eauto using not_null_move.
  - (* rook *)
    destruct (_ || _); [|reflexivity]. apply straightPath_ext; assumption.
  - (* bishop *)
    destruct (Z.eqb_spec (Z.abs (toRow - fromRow)) (Z.abs (toCol - fromCol)));
      [|reflexivity].
    apply diagonalPath_ext; eauto using not_null_move.
  - (* pawn *)
    simpl. destruct (Z.eqb_spec fromRow (startRowOf (color piece))) as [Hs|Hs].
    + rewrite (Hagree _ fromCol (ahead_inRange _ Hs) HfromCol). reflexivity.
    + simpl. reflexivity.
Qed.

(** When every square of the grid reads without error, so does the move. *)
Lemma isValidMoveWith_total (access : Board -> Z -> Z -> result (option Piece)) :
  readable access board ->
  exists v, isValidMoveWith access board fromRow fromCol toRow toCol = Ok v.
Proof.
  intros Hread. unfold isValidMoveWith.
  destruct (Hread fromRow fromCol) as [[piece|] Hfrom]; try assumption;
    rewrite Hfrom; simpl; [|eauto].
  destruct (Hread toRow toCol) as [target Hto]; try assumption.
  rewrite Hto. simpl.
  destruct (sameColor target piece) eqn:Hsame; [eauto|].
  destruct (type piece); eauto.
  - (* queen *)
    destruct ((fromRow =? toRow) || (fromCol =? toCol)) eqn:Hstraight; simpl.
    + apply straightPath_total; assumption.
    + destruct (Z.eqb_spec (Z.abs (toRow - fromRow)) (Z.abs (toCol - fromCol)));
        [|eauto].
      apply diagonalPath_total; eauto using not_null_move.
  - (* rook *)
    destruct (_ || _); [|eauto]. apply straightPath_total; assumption.
  - (* bishop *)
    destruct (Z.eqb_spec (Z.abs (toRow - fromRow)) (Z.abs (toCol - fromCol)));
      [|eauto].
    apply diagonalPath_total; eauto using not_null_move.
  - (* pawn *)
    simpl. destruct (Z.eqb_spec fromRow (startRowOf (color piece))) as [Hs|Hs].
    + destruct (Hread _ fromCol (ahead_inRange _ Hs) HfromCol) as [mid Hmid].
      rewrite Hmid. simpl.
      repeat match goal with |- context [if ?b then _ else _] => destruct b end;
        eauto.
    + simpl.
      repeat match goal with |- context [if ?b then _ else _] => destruct b end;
        eauto.
Qed.
End InGrid.

(** The rule engine returns a verdict on every move of the grid. *)
Lemma isValidMove_total (board : Board) (fromRow fromCol toRow toCol : Z) :
  wfBoard board ->
  inRange fromRow -> inRange fromCol -> inRange toRow -> inRange toCol ->
  exists v, isValidMove board fromRow fromCol toRow toCol = Ok v.
Proof.
  intros Hwf ? ? ? ?. apply isValidMoveWith_total; auto using get_readable.
Qed.

(** C10: for coordinates in [0,7] on an 8x8 board, the predicate run over
    the checked accessor, which fails on any index off the grid, returns the
    verdict of the program: no read of the origin, the destination, the
    square ahead of a pawn or a square of a path leaves the grid. *)
Theorem reads_stay_in_grid (board : Board) (fromRow fromCol toRow toCol : Z) :
  wfBoard board ->
  inRange fromRow -> inRange fromCol -> inRange toRow -> inRange toCol ->
  isValidMoveChecked board fromRow fromCol toRow toCol
  = isValidMove board fromRow fromCol toRow toCol
  /\ exists v, isValidMoveChecked board fromRow fromCol toRow toCol = Ok v.
Proof.
  intros Hwf HfR HfC HtR HtC. unfold isValidMoveChecked, isValidMove. split.
  - apply isValidMoveWith_ext; auto. intros r c Hr Hc.
    apply getChecked_get; assumption.
  - apply isValidMoveWith_total; auto using getChecked_readable.
Qed.

Lemma reads_stay_in_grid_witness :
  isValidMoveChecked initialBoard 0 2 2 4 = isValidMove initialBoard 0 2 2 4
  /\ exists v, isValidMoveChecked initialBoard 0 2 2 4 = Ok v.
Proof.
  apply (reads_stay_in_grid initialBoard 0 2 2 4 initialBoard_wf);
    unfold inRange; lia.
Defined.

(** ** Choosing a move *)

Lemma forEach_flat_map {A} (xs : list Z) (body : Z -> list A -> result (list A))
    (f : Z -> list A) :
  (forall x acc, In x xs -> body x acc = Ok (acc ++ f x)) ->
  forall acc, forEach xs body acc = Ok (acc ++ flat_map f xs).
Proof.
  induction xs as [|x xs IH]; intros Hbody acc; simpl.
  - rewrite app_nil_r. reflexivity.
  - rewrite Hbody by (left; reflexivity). simpl.
    rewrite IH by (intros; apply Hbody; right; assumption).
    rewrite app_assoc. reflexivity.
Qed.

Lemma In_range8 (x : Z) : In x range8 <-> inRange x.
Proof.
  unfold inRange. change range8 with [0; 1; 2; 3; 4; 5; 6; 7]. simpl. lia.
Qed.

(** The loops of [makeAIMove] build the full enumeration. *)
Lemma collectMoves_legalMoves (side : PieceColor) (board : Board) :
  wfBoard board -> collectMoves side board = Ok (legalMoves side board).
Proof.
  intros Hwf. unfold collectMoves, legalMoves.
  rewrite forEach_flat_map with (f := fun fromRow =>
    flat_map (fun fromCol =>
      if ownedBy side board fromRow fromCol then
        flat_map (fun toRow =>
          flat_map (fun toCol =>
            if accepted board fromRow fromCol toRow toCol
            then [(fromRow, fromCol, toRow, toCol)] else [])
          range8) range8
      else []) range8); [reflexivity|].
  intros fromRow acc HfR. apply In_range8 in HfR.
  apply forEach_flat_map. clear acc. intros fromCol acc HfC.
  apply In_range8 in HfC. unfold ownedBy.
  destruct (get_total board fromRow fromCol Hwf HfR HfC) as [[p|] Hp];
    rewrite Hp; cbn [bind]; [|rewrite app_nil_r; reflexivity].
  destruct (bool_decide (color p = side)); [|rewrite app_nil_r; reflexivity].
  apply forEach_flat_map. clear acc. intros toRow acc HtR.
  apply In_range8 in HtR.
  apply forEach_flat_map. clear acc. intros toCol acc HtC.
  apply In_range8 in HtC. unfold accepted.
  destruct (isValidMove_total board fromRow fromCol toRow toCol Hwf HfR HfC HtR HtC)
    as [[|] Hv]; rewrite Hv; cbn [bind]; [|rewrite app_nil_r]; reflexivity.
Qed.

Lemma In_legalMoves (side : PieceColor) (board : Board)
    (fromRow fromCol toRow toCol : Z) :
  In (fromRow, fromCol, toRow, toCol) (legalMoves side board) <->
  inRange fromRow /\ inRange fromCol /\ inRange toRow /\ inRange toCol
  /\ (exists p, get board fromRow fromCol = Ok (Some p) /\ color p = side)
  /\ isValidMove board fromRow fromCol toRow toCol = Ok true.
Proof.
  unfold legalMoves. split.
  - intros H.
    apply in_flat_map in H as (fr & HfR & H).
    apply in_flat_map in H as (fc & HfC & H).
    unfold ownedBy in H.
    destruct (get board fr fc) as [[p|]|e] eqn:Hp; try contradiction.
    destruct (bool_decide_reflect (color p = side)) as [Hside|]; [|contradiction].
    apply in_flat_map in H as (tr & HtR & H).
    apply in_flat_map in H as (tc & HtC & H).
    unfold accepted in H.
    destruct (isValidMove board fr fc tr tc) as [[|]|e] eqn:Hv; try contradiction.
    destruct H as [[= <- <- <- <-]|[]].
    rewrite <- !In_range8. eauto 10.
  - intros (HfR & HfC & HtR & HtC & (p & Hp & Hside) & Hv).
    rewrite <- In_range8 in HfR, HfC, HtR, HtC.
    apply in_flat_map. exists fromRow. split; [assumption|].
    apply in_flat_map. exists fromCol. split; [assumption|].
    unfold ownedBy. rewrite Hp. rewrite bool_decide_eq_true_2 by assumption.
    apply in_flat_map. exists toRow. split; [assumption|].
    apply in_flat_map. exists toCol. split; [assumption|].
    unfold accepted. rewrite Hv. left. reflexivity.
Qed.

(** [Math.floor(u * n)] is an index of a list of [n] entries. *)
Lemma randomIndex_range (u : Q) (n : nat) :
  unitInterval u -> (0 < n)%nat -> 0 <= randomIndex u n < Z.of_nat n.
Proof.
  intros [Hlo Hhi] Hn. unfold randomIndex.
  assert (Hpos : (0 < inject_Z (Z.of_nat n))%Q)
    by (rewrite <- (Zlt_Qlt 0); lia).
  split.
  - change 0 with (Qfloor (inject_Z 0)). apply Qfloor_resp_le.
    apply Qmult_le_0_compat; [exact Hlo | apply Qlt_le_weak; exact Hpos].
  - rewrite Zlt_Qlt. eapply Qle_lt_trans; [apply Qfloor_le|].
    rewrite <- (Qmult_1_l (inject_Z (Z.of_nat n))) at 2.
    apply Qmult_lt_compat_r; assumption.
Qed.

Lemma pickMove_In (u : Q) (aiMoves : list Move) (m : Move) :
  pickMove u aiMoves = Ok (Some m) -> In m aiMoves.
Proof.
  unfold pickMove. destruct (0 <? length aiMoves)%nat; [|discriminate].
  destruct (lookupZ aiMoves _) as [m'|] eqn:Hm; [|discriminate].
  intros [= <-]. apply lookupZ_Some in Hm as [_ Hm].
  apply list_elem_of_In, list_elem_of_lookup. eauto.
Qed.

Lemma pickMove_total (u : Q) (aiMoves : list Move) :
  unitInterval u -> exists res, pickMove u aiMoves = Ok res.
Proof.
  intros Hu. unfold pickMove.
  destruct (Nat.ltb_spec 0 (length aiMoves)) as [Hlen|]; [|eauto].
  destruct (lookupZ_lt aiMoves (randomIndex u (length aiMoves))) as [m Hm];
    [apply randomIndex_range; assumption|].
  rewrite Hm. eauto.
Qed.

(** C6: on every board and for either side, whatever number the random
    source returns, a move that chooseMove returns has its origin on the
    grid, on a piece of that side, is accepted by isValidMove and belongs to
    the full enumeration; when no move of the grid qualifies chooseMove
    returns none; and for a number in [0,1) chooseMove does return. *)
Theorem chooseMove_sound (side : PieceColor) (u : Q) (board : Board) :
  wfBoard board ->
  (forall fromRow fromCol toRow toCol,
      chooseMove side u board = Ok (Some (fromRow, fromCol, toRow, toCol)) ->
      inRange fromRow /\ inRange fromCol
      /\ (exists p, get board fromRow fromCol = Ok (Some p) /\ color p = side)
      /\ isValidMove board fromRow fromCol toRow toCol = Ok true
      /\ In (fromRow, fromCol, toRow, toCol) (legalMoves side board))
  /\ ((forall fromRow fromCol toRow toCol p,
         inRange fromRow -> inRange fromCol -> inRange toRow -> inRange toCol ->
         get board fromRow fromCol = Ok (Some p) -> color p = side ->
         isValidMove board fromRow fromCol toRow toCol <> Ok true) ->
      chooseMove side u board = Ok None)
  /\ (unitInterval u -> exists res, chooseMove side u board = Ok res).
Proof.
  intros Hwf. unfold chooseMove.
  rewrite collectMoves_legalMoves by assumption. simpl.
  split; [|split].
  - intros fromRow fromCol toRow toCol Hpick. apply pickMove_In in Hpick.
    pose proof Hpick as Hin.
    apply In_legalMoves in Hpick as (? & ? & ? & ? & ? & ?).
    do 3 (split; [assumption|]). split; assumption.
  - intros Hnone. destruct (legalMoves side board) as [|[[[fr fc] tr] tc] rest] eqn:Hl;
      [reflexivity|].
    assert (Hin : In (fr, fc, tr, tc) (legalMoves side board))
      by (rewrite Hl; left; reflexivity).
    apply In_legalMoves in Hin as (H & H0 & H1 & H2 & (p & H3 & H4) & Hv).
    exact (False_ind _ (Hnone fr fc tr tc p H H0 H1 H2 H3 H4 Hv)).
  - apply pickMove_total.
Qed.

Lemma empty_row_read (n : nat) (c : Z) :
  default None (lookupZ (replicate n (@None Piece)) c) = None.
Proof.
  unfold lookupZ. destruct (c <? 0); [reflexivity|].
  destruct (_ !! Z.to_nat c) as [cell|] eqn:Hcell; [|reflexivity].
  apply lookup_replicate in Hcell as [-> _]. reflexivity.
Qed.

Lemma get_emptyBoard (r c : Z) (x : option Piece) :
  get emptyBoard r c = Ok x -> x = None.
Proof.
  unfold get. destruct (lookupZ emptyBoard r) as [row|] eqn:Hrow; [|discriminate].
  apply lookupZ_Some in Hrow as [_ Hrow]. unfold emptyBoard in Hrow.
  apply lookup_replicate in Hrow as [-> _]. rewrite empty_row_read. congruence.
Qed.

Lemma emptyBoard_wf : wfBoard emptyBoard.
Proof. split; [reflexivity|]. repeat constructor. Qed.

Lemma chooseMove_sound_witness :
  (chooseMove black (1 # 3) initialBoard = Ok (Some (1, 1, 2, 1))
   /\ isValidMove initialBoard 1 1 2 1 = Ok true)
  /\ chooseMove black (1 # 3) emptyBoard = Ok None
  /\ exists res, chooseMove white (1 # 3) initialBoard = Ok res.
Proof.
  split; [split; [reflexivity|] | split].
  - apply (chooseMove_sound black (1 # 3) initialBoard initialBoard_wf).
    reflexivity.
  - apply (chooseMove_sound black (1 # 3) emptyBoard emptyBoard_wf).
    intros fromRow fromCol toRow toCol p _ _ _ _ Hp.
    apply get_emptyBoard in Hp. discriminate.
  - apply (chooseMove_sound white (1 # 3) initialBoard initialBoard_wf).
    split; [discriminate | reflexivity].
Defined.

(** The machine's move is the choice for black. *)
Lemma makeAIMove_chooses (u : Q) (board newBoard : Board) :
  makeAIMove u board = Ok (Some newBoard) ->
  exists m, chooseMove black u board = Ok (Some m)
            /\ applyMove board m = Ok newBoard.
Proof.
  unfold makeAIMove.
  destruct (chooseMove black u board) as [[m|]|e]; simpl; try discriminate.
  destruct (applyMove board m) as [b|e] eqn:Hb; simpl; try discriminate.
  intros [= <-]. eauto.
Qed.

(** ** Applying a move *)

Lemma lookupZ_nonneg {A} (l : list A) (i : Z) :
  0 <= i -> lookupZ l i = l !! Z.to_nat i.
Proof. intros Hi. unfold lookupZ. destruct (Z.ltb_spec i 0); [lia | reflexivity]. Qed.

(** One assignment on a well-formed board. *)
Lemma set_spec (board : Board) (r c : Z) (v : option Piece) :
  wfBoard board -> inRange r -> inRange c ->
  exists board',
    set board r c v = Ok board'
    /\ wfBoard board'
    /\ forall r' c', inRange r' -> inRange c' ->
         get board' r' c' = if decide (r' = r /\ c' = c) then Ok v
                            else get board r' c'.
Proof.
  intros Hwf Hr Hc. destruct (wfBoard_row board r Hwf Hr) as (row & Hrow & Hlen).
  unfold set. rewrite Hrow. eexists. split; [reflexivity|].
  assert (Hcell : setCell row c v = <[Z.to_nat c := v]> row).
  { unfold setCell, inRange in *. rewrite Hlen. decide_tests. reflexivity. }
  rewrite Hcell. destruct Hwf as [Hrows Hall]. unfold inRange in *. split.
  - split; [rewrite length_insert; exact Hrows|].
    apply Forall_insert; [exact Hall|]. rewrite length_insert. exact Hlen.
  - intros r' c' Hr' Hc'. unfold get.
    rewrite (lookupZ_nonneg _ r') by lia.
    destruct (decide (r' = r)) as [->|Hne].
    + rewrite list_lookup_insert_eq by lia. rewrite Hrow.
      rewrite !(lookupZ_nonneg _ c') by lia.
      destruct (decide (c' = c)) as [->|Hne].
      * rewrite list_lookup_insert_eq by lia.
        rewrite decide_True by auto. reflexivity.
      * rewrite list_lookup_insert_ne by lia.
        rewrite decide_False by tauto. reflexivity.
    + rewrite list_lookup_insert_ne by lia.
      rewrite decide_False by tauto.
      rewrite (lookupZ_nonneg _ r') by lia. reflexivity.
Qed.

(** The value of the board after a move of the grid. *)
Lemma applyMove_spec (board : Board) (fromRow fromCol toRow toCol : Z) :
  wfBoard board ->
  inRange fromRow -> inRange fromCol -> inRange toRow -> inRange toCol ->
  exists board',
    applyMove board (fromRow, fromCol, toRow, toCol) = Ok board'
    /\ wfBoard board'
    /\ forall r c, inRange r -> inRange c ->
         get board' r c =
         if decide (r = fromRow /\ c = fromCol) then Ok None
         else if decide (r = toRow /\ c = toCol) then get board fromRow fromCol
         else get board r c.
Proof.
  intros Hwf HfR HfC HtR HtC. unfold applyMove.
  destruct (get_total board fromRow fromCol Hwf HfR HfC) as [moved Hmoved].
  rewrite Hmoved. cbn [bind].
  destruct (set_spec board toRow toCol moved Hwf HtR HtC) as (b1 & Hb1 & Hwf1 & Hget1).
  rewrite Hb1. cbn [bind].
  destruct (set_spec b1 fromRow fromCol None Hwf1 HfR HfC) as (b2 & Hb2 & Hwf2 & Hget2).
  exists b2. split; [exact Hb2|]. split; [exact Hwf2|].
  intros r c Hr Hc. rewrite Hget2, Hget1 by assumption.
  repeat case_decide; reflexivity.
Qed.

(** Well-formed boards that read alike are equal. *)
Lemma board_ext (b1 b2 : Board) :
  wfBoard b1 -> wfBoard b2 ->
  (forall r c, inRange r -> inRange c -> get b1 r c = get b2 r c) ->
  b1 = b2.
Proof.
  intros Hwf1 Hwf2 Hget. apply list_eq. intros i.
  destruct (decide (i < 8)%nat) as [Hi|Hi].
  - assert (Hr : inRange (Z.of_nat i)) by (unfold inRange; lia).
    destruct (wfBoard_row b1 _ Hwf1 Hr) as (row1 & Hrow1 & Hlen1).
    destruct (wfBoard_row b2 _ Hwf2 Hr) as (row2 & Hrow2 & Hlen2).
    pose proof Hrow1 as Hl1. pose proof Hrow2 as Hl2.
    apply lookupZ_Some in Hl1 as [_ Hl1]. apply lookupZ_Some in Hl2 as [_ Hl2].
    rewrite Nat2Z.id in Hl1, Hl2. rewrite Hl1, Hl2. f_equal.
    apply list_eq. intros j. destruct (decide (j < 8)%nat) as [Hj|Hj].
    + assert (Hc : inRange (Z.of_nat j)) by (unfold inRange; lia).
      specialize (Hget _ _ Hr Hc). unfold get in Hget.
      rewrite Hrow1, Hrow2 in Hget.
      rewrite !lookupZ_nonneg, !Nat2Z.id in Hget by lia.
      destruct (lookup_lt_is_Some_2 row1 j) as [x1 Hx1]; [lia|].
      destruct (lookup_lt_is_Some_2 row2 j) as [x2 Hx2]; [lia|].
      rewrite Hx1, Hx2 in *. simpl in Hget. congruence.
    + rewrite !lookup_ge_None_2 by lia. reflexivity.
  - destruct Hwf1 as [Hlen1 _], Hwf2 as [Hlen2 _].
    rewrite !lookup_ge_None_2 by lia. reflexivity.
Qed.

(** C7: a move between two different squares onto an empty destination,
    followed by the move back, gives the board there was. *)
Theorem move_and_back (board : Board) (fromRow fromCol toRow toCol : Z) :
  wfBoard board ->
  inRange fromRow -> inRange fromCol -> inRange toRow -> inRange toCol ->
  (fromRow, fromCol) <> (toRow, toCol) ->
  get board toRow toCol = Ok None ->
  exists there,
    applyMove board (fromRow, fromCol, toRow, toCol) = Ok there
    /\ applyMove there (toRow, toCol, fromRow, fromCol) = Ok board.
Proof.
  intros Hwf HfR HfC HtR HtC Hne Hempty.
  destruct (applyMove_spec board fromRow fromCol toRow toCol)
    as (there & Hthere & Hwf1 & Hget1); try assumption.
  destruct (applyMove_spec there toRow toCol fromRow fromCol)
    as (back & Hback & Hwf2 & Hget2); try assumption.
  exists there. split; [exact Hthere|]. rewrite Hback. f_equal.
  apply board_ext; try assumption. intros r c Hr Hc.
  rewrite Hget2 by assumption.
  rewrite !Hget1 by assumption.
  repeat case_decide; try reflexivity;
    repeat match goal with H : _ /\ _ |- _ => destruct H end; subst;
    try congruence; try tauto.
Qed.

Lemma move_and_back_witness :
  exists there,
    applyMove initialBoard (6, 4, 4, 4) = Ok there
    /\ applyMove there (4, 4, 6, 4) = Ok initialBoard.
Proof.
  apply (move_and_back initialBoard 6 4 4 4 initialBoard_wf);
    unfold inRange; try lia; [discriminate | reflexivity].
Defined.

(** ** The store: copies are written, originals are not *)

Lemma deref_Forall2 (st : gmap loc Row) (b : BoardRef) (rows : Board) :
  deref st b = Ok rows <-> Forall2 (fun l row => st !! l = Some row) b rows.
Proof.
  revert rows. induction b as [|l b IH]; intros rows; simpl.
  - split.
    + intros [= <-]. constructor.
    + intros H. inversion H. reflexivity.
  - destruct (st !! l) as [row|] eqn:Hl.
    + destruct (deref st b) as [rest|e]; simpl.
      * split.
        -- intros [= <-]. constructor; [exact Hl | apply IH; reflexivity].
        -- intros H. inversion H as [|? row' ? rest' Hrow Hrest]; subst.
           apply IH in Hrest. congruence.
      * split; [discriminate|].
        intros H. inversion H as [|? ? ? rest' _ Hrest]; subst.
        apply IH in Hrest. discriminate.
    + split; [discriminate|]. intros H. inversion H. congruence.
Qed.

(** A store that keeps every array of another reads its boards alike. *)
Lemma deref_weaken (st st' : gmap loc Row) (b : BoardRef) (rows : Board) :
  (forall l row, st !! l = Some row -> st' !! l = Some row) ->
  deref st b = Ok rows -> deref st' b = Ok rows.
Proof.
  intros Hkeep. rewrite !deref_Forall2. intros Hd.
  eapply Forall2_impl; [exact Hd|]. intros l row. apply Hkeep.
Qed.

(** [board.map(row => [...row])] returns new, distinct arrays holding the
    rows of the board and leaves every array of the store as it was. *)
Lemma copyRows_spec (b : BoardRef) :
  forall (st : gmap loc Row) (rows : Board),
    deref st b = Ok rows ->
    exists newBoard st',
      copyRows st b = Ok (newBoard, st')
      /\ deref st' newBoard = Ok rows
      /\ (forall l row, st !! l = Some row -> st' !! l = Some row)
      /\ (forall l, l ∈ newBoard -> st !! l = None)
      /\ NoDup newBoard.
Proof.
  induction b as [|l b IH]; intros st rows Hrows; simpl in *.
  - injection Hrows as <-. exists [], st. repeat split; auto.
    + intros l Hl. inversion Hl.
    + constructor.
  - destruct (st !! l) as [row|] eqn:Hl; [|discriminate].
    destruct (deref st b) as [rest|e] eqn:Hrest; [|discriminate].
    injection Hrows as <-.
    set (l' := fresh (dom st)).
    assert (Hfresh : st !! l' = None) by (apply not_elem_of_dom, is_fresh).
    assert (Hsub : forall k r, st !! k = Some r -> <[l' := row]> st !! k = Some r).
    { intros k r Hk. rewrite lookup_insert_ne; [exact Hk | congruence]. }
    destruct (IH (<[l' := row]> st) rest) as (nb & st2 & Hcopy & Hd & Hkeep & Hnew & Hnd).
    { eapply deref_weaken; eauto. }
    rewrite Hcopy. simpl. exists (l' :: nb), st2.
    assert (Hl' : st2 !! l' = Some row) by (apply Hkeep, lookup_insert_eq).
    split; [reflexivity|]. split; [|split; [|split]].
    + simpl. rewrite Hl', Hd. reflexivity.
    + intros k r Hk. apply Hkeep, Hsub, Hk.
    + intros k Hk. apply elem_of_cons in Hk as [->|Hk]; [exact Hfresh|].
      apply Hnew in Hk. destruct (decide (k = l')) as [->|Hne]; [exact Hfresh|].
      rewrite lookup_insert_ne in Hk; [exact Hk | congruence].
    + apply NoDup_cons. split; [|exact Hnd].
      intros Hin. apply Hnew in Hin. rewrite lookup_insert_eq in Hin. discriminate.
Qed.

Lemma readCell_deref (st : gmap loc Row) (b : BoardRef) (rows : Board) (r c : Z) :
  deref st b = Ok rows -> readCell st b r c = get rows r c.
Proof.
  rewrite deref_Forall2. intros Hd. unfold readCell, get, lookupZ.
  destruct (r <? 0); [reflexivity|].
  destruct (b !! Z.to_nat r) as [l|] eqn:Hl.
  - destruct (Forall2_lookup_l _ _ _ _ _ Hd Hl) as (row & Hrow & Hst).
    rewrite Hrow, Hst. reflexivity.
  - apply lookup_ge_None in Hl. rewrite (Forall2_length _ _ _ Hd) in Hl.
    rewrite (lookup_ge_None_2 rows) by exact Hl. reflexivity.
Qed.

(** An assignment through the references of distinct rows is the assignment
    on the value, and touches no array but a row of the board. *)
Lemma writeCell_deref (st : gmap loc Row) (b : BoardRef) (rows rows' : Board)
    (r c : Z) (v : option Piece) :
  deref st b = Ok rows -> NoDup b ->
  set rows r c v = Ok rows' ->
  exists st',
    writeCell st b r c v = Ok st'
    /\ deref st' b = Ok rows'
    /\ (forall l, l ∉ b -> st' !! l = st !! l).
Proof.
  rewrite deref_Forall2. intros Hd Hnd. unfold set, writeCell.
  destruct (lookupZ rows r) as [row|] eqn:Hrow; [|discriminate].
  intros [= <-]. apply lookupZ_Some in Hrow as [Hr Hrow].
  destruct (Forall2_lookup_r _ _ _ _ _ Hd Hrow) as (l & Hl & Hst).
  rewrite (lookupZ_nonneg _ r Hr), Hl, Hst. eexists. split; [reflexivity|].
  split.
  - apply deref_Forall2. apply Forall2_same_length_lookup. split.
    + rewrite length_insert. eapply Forall2_length, Hd.
    + intros i k row' Hk Hrow'.
      destruct (decide (i = Z.to_nat r)) as [->|Hne].
      * rewrite list_lookup_insert_eq in Hrow' by (eapply lookup_lt_Some, Hrow).
        injection Hrow' as <-. rewrite Hl in Hk. injection Hk as <-.
        apply lookup_insert_eq.
      * rewrite list_lookup_insert_ne in Hrow' by congruence.
        rewrite lookup_insert_ne.
        -- exact (Forall2_lookup_lr _ _ _ _ _ _ Hd Hk Hrow').
        -- intros <-. apply Hne. eapply NoDup_lookup; eauto.
  - intros k Hk. apply lookup_insert_ne. intros <-. apply Hk.
    apply list_elem_of_lookup. eauto.
Qed.

(** The statements on the store compute the board that [applyMove] computes
    on the value, in new arrays, and keep every array the store held. *)
Lemma applyMoveStore_refines (st : gmap loc Row) (board : BoardRef)
    (old new : Board) (m : Move) :
  deref st board = Ok old ->
  applyMove old m = Ok new ->
  exists newBoard st',
    applyMoveStore st board m = Ok (newBoard, st')
    /\ deref st' newBoard = Ok new
    /\ (forall l row, st !! l = Some row -> st' !! l = Some row)
    /\ (forall l, l ∈ newBoard -> st !! l = None).
Proof.
  destruct m as [[[fromRow fromCol] toRow] toCol]. intros Hold Hnew.
  unfold applyMove in Hnew. unfold applyMoveStore.
  destruct (copyRows_spec board st old Hold)
    as (nb & st1 & Hcopy & Hd1 & Hkeep & Hfresh & Hnd).
  rewrite Hcopy. cbn [bind]. rewrite (readCell_deref _ _ _ _ _ Hd1).
  destruct (get old fromRow fromCol) as [moved|e]; [|discriminate].
  cbn [bind] in *.
  destruct (set old toRow toCol moved) as [b1|e] eqn:Hb1; [|discriminate].
  cbn [bind] in *.
  destruct (writeCell_deref _ _ _ _ _ _ _ Hd1 Hnd Hb1) as (st2 & Hw1 & Hd2 & Hout1).
  rewrite Hw1. cbn [bind].
  destruct (writeCell_deref _ _ _ _ _ _ _ Hd2 Hnd Hnew) as (st3 & Hw2 & Hd3 & Hout2).
  rewrite Hw2. cbn [bind].
  exists nb, st3. split; [reflexivity|]. split; [exact Hd3|]. split; [|exact Hfresh].
  intros l row Hl.
  assert (Hnotin : l ∉ nb) by (intros Hin; apply Hfresh in Hin; congruence).
  rewrite Hout2, Hout1 by exact Hnotin. apply Hkeep, Hl.
Qed.

(** A move between two different squares of the grid: the new board holds on
    the destination what the origin held, nothing on the origin and on every
    other square what it held; it is made of new arrays, and the board
    passed in and every array of the store read as before. *)
Lemma functionalUpdate_distinct (st : gmap loc Row) (board : BoardRef)
    (old : Board) (fromRow fromCol toRow toCol : Z) :
  deref st board = Ok old ->
  wfBoard old ->
  inRange fromRow -> inRange fromCol -> inRange toRow -> inRange toCol ->
  (fromRow, fromCol) <> (toRow, toCol) ->
  functionalUpdate st board (fromRow, fromCol, toRow, toCol).
Proof.
  intros Hold Hwf HfR HfC HtR HtC Hne.
  destruct (applyMove_spec old fromRow fromCol toRow toCol)
    as (new & Hnew & _ & Hget); try assumption.
  destruct (applyMoveStore_refines st board old new _ Hold Hnew)
    as (nb & st' & Happ & Hd & Hkeep & Hfresh).
  exists old, nb, st', new. repeat (split; [assumption|]).
  split; [|split; [|split; [|assumption]]].
  - split; [|split].
    + rewrite Hget by assumption. rewrite decide_False.
      * rewrite decide_True by auto. reflexivity.
      * intros [-> ->]. apply Hne. reflexivity.
    + rewrite Hget by assumption. rewrite decide_True by auto. reflexivity.
    + intros r c Hr Hc Hn1 Hn2. rewrite Hget by assumption.
      rewrite !decide_False; [reflexivity | |]; intros [-> ->]; congruence.
  - eapply deref_weaken; eauto.
  - exact Hkeep.
Qed.

(** C8: for every 8x8 board and every move of the grid that isValidMove has
    accepted, which is what both callers apply, the new board holds on the
    destination exactly the piece that was at the origin, nothing on the
    origin and on every other square what it held; it is made of new
    arrays, and the board passed in and every array of the store read as
    before: the update is functional. *)
Theorem applyMove_functional_update (st : gmap loc Row) (board : BoardRef)
    (old : Board) (fromRow fromCol toRow toCol : Z) :
  deref st board = Ok old ->
  wfBoard old ->
  inRange fromRow -> inRange fromCol -> inRange toRow -> inRange toCol ->
  isValidMove old fromRow fromCol toRow toCol = Ok true ->
  functionalUpdate st board (fromRow, fromCol, toRow, toCol).
Proof.
  intros Hold Hwf HfR HfC HtR HtC Hvalid.
  apply (functionalUpdate_distinct st board old); try assumption.
  apply (accepted_move_not_null old). exact Hvalid.
Qed.

Lemma applyMove_functional_update_witness :
  isValidMove initialBoard 6 4 4 4 = Ok true
  /\ functionalUpdate (snd initialStore) (fst initialStore) (6, 4, 4, 4).
Proof.
  split; [reflexivity|].
  apply (applyMove_functional_update _ _ initialBoard 6 4 4 4);
    [ reflexivity | exact initialBoard_wf | unfold inRange; lia ..
    | reflexivity ].
Defined.

(** ** Scenarios of the specification *)

(** The king's pawn may go two squares from the starting position, not
    three. *)
Example pawn_e2_e4 :
  isValidMove initialBoard 6 4 4 4 = Ok true
  /\ isValidMove initialBoard 6 4 3 4 = Ok false.
Proof. split; reflexivity. Qed.

(** A knight in the middle of an empty board has its eight jumps and no other
    move. *)
Example knight_jumps :
  legalMoves white loneKnight =
  [ (4, 4, 2, 3); (4, 4, 2, 5); (4, 4, 3, 2); (4, 4, 3, 6);
    (4, 4, 5, 2); (4, 4, 5, 6); (4, 4, 6, 3); (4, 4, 6, 5) ].
Proof. reflexivity. Qed.

(** The bishop is stopped by its own pawn on one diagonal and free on the
    other. *)
Example bishop_behind_pawn :
  isValidMove hemmedBishop 0 2 2 4 = Ok false
  /\ isValidMove hemmedBishop 0 2 1 1 = Ok true.
Proof. split; reflexivity. Qed.

(** Off the grid the rule engine throws on a row and reads an empty square on
    a column. *)
Example off_the_grid :
  isValidMove initialBoard 0 2 9 4 = Err TypeError
  /\ isValidMove loneKnight 4 4 8 4 = Err TypeError
  /\ isValidMove (place emptyBoard 0 7 (mkPiece king black)) 0 7 0 8 = Ok true.
Proof. repeat split. Qed.

(** ** Every accepted move, kind by kind *)

Lemma forLoop_true_iff (cell : Z -> result (option Piece)) (n : nat) (i : Z) :
  forLoop n i cell = Ok true <->
  forall k, i <= k < i + Z.of_nat n -> cell k = Ok None.
Proof.
  split; [|apply forLoop_clear].
  revert i. induction n as [|n IH]; intros i Hrun k Hk; [lia|].
  simpl in Hrun. destruct (cell i) as [[p|]|e] eqn:Hi; simpl in Hrun;
    try discriminate.
  destruct (Z.eq_dec k i) as [->|Hne]; [exact Hi|].
  apply (IH (i + 1)); [exact Hrun | lia].
Qed.

Section PathSpec.
Variables (board : Board) (fromRow fromCol toRow toCol : Z).
Hypothesis Hwf : wfBoard board.
Hypothesis HfromRow : inRange fromRow.
Hypothesis HfromCol : inRange fromCol.
Hypothesis HtoRow : inRange toRow.
Hypothesis HtoCol : inRange toCol.

Lemma straightPath_spec :
  fromRow = toRow \/ fromCol = toCol ->
  straightPath get board fromRow fromCol toRow toCol = Ok true
  <-> pathClear board fromRow fromCol toRow toCol.
Proof.
  intros Hline. unfold straightPath, pathClear, between, inRange in *.
  decide_tests; rewrite forLoop_true_iff; split.
  all: try (intros Hall r c (k & Hk & -> & ->); revert Hk;
            sgn_cases (toRow - fromRow); sgn_cases (toCol - fromCol);
            intros Hk; try lia;
            rewrite ?Z.mul_0_r, ?Z.add_0_r; apply Hall; lia).
  all: intros Hbet j Hj; apply Hbet.
  all: first [ exists (Z.abs (j - fromCol)); sgn_cases (toRow - fromRow);
               sgn_cases (toCol - fromCol); lia
             | exists (Z.abs (j - fromRow)); sgn_cases (toRow - fromRow);
               sgn_cases (toCol - fromCol); lia ].
Qed.

Lemma diagonalPath_spec :
  Z.abs (toRow - fromRow) = Z.abs (toCol - fromCol) ->
  fromRow <> toRow ->
  diagonalPath get board fromRow fromCol toRow toCol = Ok true
  <-> pathClear board fromRow fromCol toRow toCol.
Proof.
  intros Hdiag Hne. rewrite diagonalPath_forLoop by assumption.
  rewrite forLoop_true_iff. unfold pathClear, between. split.
  - intros Hall r c (k & Hk & -> & ->). apply Hall. lia.
  - intros Hbet k Hk. apply Hbet. exists k. split; [lia | auto].
Qed.
End PathSpec.


Lemma sameColor_false_notOwn (board : Board) (piece : Piece) (toRow toCol : Z)
    (target : option Piece) :
  get board toRow toCol = Ok target ->
  sameColor target piece = false <-> notOwn board piece toRow toCol.
Proof.
  intros Hto. unfold notOwn. rewrite Hto. split.
  - intros Hsame t [= ->]. simpl in Hsame.
    apply bool_decide_eq_false in Hsame. exact Hsame.
  - intros Hnot. destruct target as [t|]; [|reflexivity]. simpl.
    apply bool_decide_eq_false. apply Hnot. reflexivity.
Qed.

(** A rook, bishop or queen: the geometry of its kind, a clear path and a
    destination that is not its own. *)
Lemma sliding_spec
    (board : Board) (fromRow fromCol toRow toCol : Z) (piece : Piece) :
  wfBoard board ->
  inRange fromRow -> inRange fromCol -> inRange toRow -> inRange toCol ->
  get board fromRow fromCol = Ok (Some piece) ->
  type piece = rook \/ type piece = bishop \/ type piece = queen ->
  isValidMove board fromRow fromCol toRow toCol = Ok true
  <-> lineGeometry (type piece) fromRow fromCol toRow toCol
      /\ pathClear board fromRow fromCol toRow toCol
      /\ notOwn board piece toRow toCol.
Proof.
  intros Hwf HfR HfC HtR HtC Hfrom Hkind.
  destruct (get_total board toRow toCol Hwf HtR HtC) as [target Hto].
  pose proof (sameColor_false_notOwn board piece toRow toCol target Hto) as Hown.
  unfold isValidMove, isValidMoveWith. rewrite Hfrom. cbn [bind].
  rewrite Hto. cbn [bind].
  destruct (sameColor target piece) eqn:Hsame.
  { split; [discriminate|]. intros (_ & _ & Hnot). apply Hown in Hnot. discriminate. }
  assert (Hnot : notOwn board piece toRow toCol) by (apply Hown; reflexivity).
  assert (Hnull : Z.abs (toRow - fromRow) = Z.abs (toCol - fromCol) ->
                  fromRow <> toRow)
    by (eapply (not_null_move board fromRow fromCol toRow toCol HtR HtC get); eauto).
  destruct Hkind as [Hk|[Hk|Hk]]; rewrite Hk; simpl.
  - (* rook *)
    destruct (Z.eqb_spec fromRow toRow) as [Hrow|Hrow];
      [|destruct (Z.eqb_spec fromCol toCol) as [Hcol|Hcol]]; simpl.
    + rewrite straightPath_spec by auto. tauto.
    + rewrite straightPath_spec by auto. tauto.
    + split; [discriminate | tauto].
  - (* bishop *)
    destruct (Z.eqb_spec (Z.abs (toRow - fromRow)) (Z.abs (toCol - fromCol)))
      as [Hdiag|Hdiag].
    + rewrite diagonalPath_spec by auto. tauto.
    + split; [discriminate | tauto].
  - (* queen *)
    destruct (Z.eqb_spec fromRow toRow) as [Hrow|Hrow];
      [|destruct (Z.eqb_spec fromCol toCol) as [Hcol|Hcol]]; simpl.
    + rewrite straightPath_spec by auto. tauto.
    + rewrite straightPath_spec by auto. tauto.
    + destruct (Z.eqb_spec (Z.abs (toRow - fromRow)) (Z.abs (toCol - fromCol)))
        as [Hdiag|Hdiag].
      * rewrite diagonalPath_spec by auto. tauto.
      * split; [discriminate | tauto].
Qed.

(** A pawn has the three moves of [pawnShape] and no other. *)
Lemma pawn_spec
    (board : Board) (fromRow fromCol toRow toCol : Z) (piece : Piece) :
  wfBoard board ->
  inRange fromRow -> inRange fromCol -> inRange toRow -> inRange toCol ->
  get board fromRow fromCol = Ok (Some piece) ->
  type piece = pawn ->
  isValidMove board fromRow fromCol toRow toCol = Ok true
  <-> pawnShape board piece fromRow fromCol toRow toCol.
Proof.
  intros Hwf HfR HfC HtR HtC Hfrom Hpawn.
  destruct (get_total board toRow toCol Hwf HtR HtC) as [target Hto].
  unfold isValidMove, isValidMoveWith, pawnShape.
  rewrite Hfrom. cbn [bind]. rewrite Hto. cbn [bind]. rewrite Hpawn.
  assert (Hd : directionOf (color piece) = 1 \/ directionOf (color piece) = -1)
    by (destruct (color piece); auto).
  assert (Hmid : fromRow = startRowOf (color piece) ->
                 exists mid, get board (fromRow + directionOf (color piece)) fromCol
                             = Ok mid).
  { intros Hs. apply get_total; auto. apply ahead_inRange; assumption. }
  revert Hd Hmid. generalize (directionOf (color piece)) (startRowOf (color piece)).
  intros d s Hd Hmid.
  destruct target as [t|]; simpl.
  - destruct (bool_decide_reflect (color t = color piece)) as [Hc|Hc].
    + split; [discriminate|].
      intros [(_ & _ & [=])|[(_ & _ & _ & _ & [=])|(_ & _ & t' & [= <-] & Hn)]].
      contradiction.
    + rewrite andb_false_r, andb_true_r.
      destruct (Z.eqb_spec (Z.abs (toCol - fromCol)) 1) as [Hside|Hside];
        destruct (Z.eqb_spec toRow (fromRow + d)) as [Hrow|Hrow]; simpl;
        (split;
         [ intros [=]; try (right; right; eauto)
         | intros [(_ & _ & [=])|[(_ & _ & _ & _ & [=])|(? & ? & _)]];
           try reflexivity; try contradiction ]).
  - rewrite andb_true_r, !andb_false_r.
    destruct (Z.eqb_spec toCol fromCol) as [Hcol|Hcol]; simpl.
    + destruct (Z.eqb_spec toRow (fromRow + d)) as [Hrow|Hrow].
      * split; [intros _; left; auto | reflexivity].
      * destruct (Z.eqb_spec fromRow s) as [Hs|Hs]; simpl.
        -- destruct (Hmid Hs) as [mid Hm].
           destruct (Z.eqb_spec toRow (fromRow + 2 * d)) as [Htwo|Htwo].
           ++ rewrite Hm. cbn [bind]. destruct mid as [q|]; simpl.
              ** split; [discriminate|].
                 intros [(_ & ? & _)|[(_ & _ & _ & [=] & _)|(? & _)]];
                   try contradiction; lia.
              ** split; [intros _; right; left; auto | reflexivity].
           ++ split; [discriminate|].
              intros [(_ & ? & _)|[(_ & _ & ? & _)|(? & _)]];
                try contradiction; lia.
        -- split; [discriminate|].
           intros [(_ & ? & _)|[(_ & ? & _)|(? & _)]];
             try contradiction; lia.
    + split; [discriminate|].
      intros [(? & _)|[(? & _)|(_ & _ & t' & [=] & _)]]; contradiction.
Qed.

(** Knights and kings: the offsets and the destination decide. *)
Lemma leaper_spec
    (board : Board) (fromRow fromCol toRow toCol : Z) (piece : Piece) :
  wfBoard board -> inRange toRow -> inRange toCol ->
  get board fromRow fromCol = Ok (Some piece) ->
  let rowDiff := Z.abs (toRow - fromRow) in
  let colDiff := Z.abs (toCol - fromCol) in
  (type piece = knight ->
   isValidMove board fromRow fromCol toRow toCol = Ok true
   <-> (rowDiff = 2 /\ colDiff = 1 \/ rowDiff = 1 /\ colDiff = 2)
       /\ notOwn board piece toRow toCol)
  /\ (type piece = king ->
      isValidMove board fromRow fromCol toRow toCol = Ok true
      <-> rowDiff <= 1 /\ colDiff <= 1 /\ notOwn board piece toRow toCol).
Proof.
  intros Hwf HtR HtC Hfrom rowDiff colDiff.
  destruct (get_total board toRow toCol Hwf HtR HtC) as [target Hto].
  pose proof (sameColor_false_notOwn board piece toRow toCol target Hto) as Hown.
  unfold isValidMove, isValidMoveWith. rewrite Hfrom. cbn [bind].
  rewrite Hto. cbn [bind]. fold rowDiff colDiff. clearbody rowDiff colDiff.
  split; intros Hkind; rewrite Hkind;
    (destruct (sameColor target piece);
     [ split; [discriminate|]; intros H;
       assert (true = false) by (apply Hown; tauto); discriminate
     | assert (Hnot : notOwn board piece toRow toCol) by (apply Hown; reflexivity) ]).
  - split.
    + intros [= H]. split; [|exact Hnot].
      apply orb_true_iff in H as [H|H]; apply andb_true_iff in H as [H1 H2];
        apply Z.eqb_eq in H1, H2; auto.
    + intros [[[-> ->]|[-> ->]] _]; reflexivity.
  - split.
    + intros [= H]. apply andb_true_iff in H as [H1 H2].
      apply Z.leb_le in H1, H2. auto.
    + intros (H1 & H2 & _). f_equal. apply andb_true_iff.
      split; apply Z.leb_le; assumption.
Qed.

(** X1: for a rook, bishop or queen on an 8x8 board, isValidMove accepts a
    move of the grid exactly when the move has the geometry of the kind,
    every square strictly between its ends is empty and the destination
    holds no piece of the mover's colour. *)
Theorem sliding_piece_moves
    (board : Board) (fromRow fromCol toRow toCol : Z) (piece : Piece) :
  wfBoard board ->
  inRange fromRow -> inRange fromCol -> inRange toRow -> inRange toCol ->
  get board fromRow fromCol = Ok (Some piece) ->
  type piece = rook \/ type piece = bishop \/ type piece = queen ->
  isValidMove board fromRow fromCol toRow toCol = Ok true
  <-> lineGeometry (type piece) fromRow fromCol toRow toCol
      /\ pathClear board fromRow fromCol toRow toCol
      /\ notOwn board piece toRow toCol.
Proof. apply sliding_spec. Qed.

Lemma sliding_piece_moves_witness :
  isValidMove hemmedBishop 0 2 1 1 = Ok true
  <-> lineGeometry bishop 0 2 1 1
      /\ pathClear hemmedBishop 0 2 1 1
      /\ notOwn hemmedBishop (mkPiece bishop black) 1 1.
Proof.
  apply (sliding_piece_moves hemmedBishop 0 2 1 1 (mkPiece bishop black));
    [ board_shape | on_grid .. | reflexivity | simpl; auto ].
Defined.

(** X2: for a pawn on an 8x8 board, isValidMove accepts a move of the grid
    exactly when it is one step ahead onto an empty square, two steps ahead
    from the starting rank with both squares empty, or one step ahead and
    one aside onto a piece of the other colour; a pawn never moves back,
    sideways or further. *)
Theorem pawn_moves
    (board : Board) (fromRow fromCol toRow toCol : Z) (piece : Piece) :
  wfBoard board ->
  inRange fromRow -> inRange fromCol -> inRange toRow -> inRange toCol ->
  get board fromRow fromCol = Ok (Some piece) ->
  type piece = pawn ->
  isValidMove board fromRow fromCol toRow toCol = Ok true
  <-> pawnShape board piece fromRow fromCol toRow toCol.
Proof. apply pawn_spec. Qed.

Lemma pawn_moves_witness :
  isValidMove initialBoard 6 4 4 4 = Ok true
  <-> pawnShape initialBoard (mkPiece pawn white) 6 4 4 4.
Proof.
  apply (pawn_moves initialBoard 6 4 4 4 (mkPiece pawn white));
    [ exact initialBoard_wf | on_grid .. | reflexivity | reflexivity ].
Defined.

(** X3: a knight is accepted exactly on the offsets (2,1) and (1,2), a king
    exactly on offsets of at most one row and one column, in both cases onto
    a square that holds no piece of the mover's colour; no other square of
    the board matters (the king may step onto an attacked square). *)
Theorem knight_and_king_moves
    (board : Board) (fromRow fromCol toRow toCol : Z) (piece : Piece) :
  wfBoard board -> inRange toRow -> inRange toCol ->
  get board fromRow fromCol = Ok (Some piece) ->
  let rowDiff := Z.abs (toRow - fromRow) in
  let colDiff := Z.abs (toCol - fromCol) in
  (type piece = knight ->
   isValidMove board fromRow fromCol toRow toCol = Ok true
   <-> (rowDiff = 2 /\ colDiff = 1 \/ rowDiff = 1 /\ colDiff = 2)
       /\ notOwn board piece toRow toCol)
  /\ (type piece = king ->
      isValidMove board fromRow fromCol toRow toCol = Ok true
      <-> rowDiff <= 1 /\ colDiff <= 1 /\ notOwn board piece toRow toCol).
Proof. apply leaper_spec. Qed.

Lemma knight_and_king_moves_witness :
  isValidMove loneKnight 4 4 2 3 = Ok true
  <-> (Z.abs (2 - 4) = 2 /\ Z.abs (3 - 4) = 1
       \/ Z.abs (2 - 4) = 1 /\ Z.abs (3 - 4) = 2)
      /\ notOwn loneKnight (mkPiece knight white) 2 3.
Proof.
  apply (knight_and_king_moves loneKnight 4 4 2 3 (mkPiece knight white));
    [ board_shape | on_grid | on_grid | reflexivity | reflexivity ].
Defined.

(** ** When the rule engine throws *)


Lemma get_row_throws (board : Board) (r c : Z) :
  wfBoard board -> ~ inRange r -> get board r c = Err TypeError.
Proof.
  intros [Hlen _] Hr. unfold get, lookupZ, inRange in *.
  destruct (Z.ltb_spec r 0); [reflexivity|].
  rewrite lookup_ge_None_2 by lia. reflexivity.
Qed.

Lemma get_Some_inRange (board : Board) (r c : Z) (p : Piece) :
  wfBoard board -> get board r c = Ok (Some p) -> inRange r /\ inRange c.
Proof.
  intros Hwf Hp. destruct (decide (inRange r)) as [Hr|Hr].
  - split; [exact Hr|].
    destruct (wfBoard_row board r Hwf Hr) as (row & Hrow & Hlen).
    unfold get in Hp. rewrite Hrow in Hp. injection Hp as Hp.
    destruct (lookupZ row c) as [cell|] eqn:Hc; [|discriminate].
    apply lookupZ_Some in Hc as [Hc0 Hc]. apply lookup_lt_Some in Hc.
    unfold inRange. lia.
  - rewrite get_row_throws in Hp by assumption. discriminate.
Qed.





(** ** The verdict depends on the squares of the move alone *)

Section Frame.
Variables (b b' : Board) (fromRow fromCol toRow toCol : Z).
Hypothesis Hwf : wfBoard b.
Hypothesis Hwf' : wfBoard b'.
Hypothesis HfromRow : inRange fromRow.
Hypothesis HfromCol : inRange fromCol.
Hypothesis HtoRow : inRange toRow.
Hypothesis HtoCol : inRange toCol.
Hypothesis Hbetween :
  forall r c, between fromRow fromCol toRow toCol r c -> get b r c = get b' r c.

Lemma straightPath_frame :
  (fromRow =? toRow) || (fromCol =? toCol) = true ->
  straightPath get b fromRow fromCol toRow toCol
  = straightPath get b' fromRow fromCol toRow toCol.
Proof.
  intros Hline. apply orb_true_iff in Hline. rewrite !Z.eqb_eq in Hline.
  unfold straightPath, inRange in *.
  decide_tests; apply forLoop_ext; intros j Hj; apply Hbetween; unfold between.
  all: first [ exists (Z.abs (j - fromCol)); sgn_cases (toRow - fromRow);
               sgn_cases (toCol - fromCol); lia
             | exists (Z.abs (j - fromRow)); sgn_cases (toRow - fromRow);
               sgn_cases (toCol - fromCol); lia ].
Qed.

Lemma diagonalPath_frame :
  Z.abs (toRow - fromRow) = Z.abs (toCol - fromCol) ->
  fromRow <> toRow ->
  diagonalPath get b fromRow fromCol toRow toCol
  = diagonalPath get b' fromRow fromCol toRow toCol.
Proof.
  intros Hdiag Hne. rewrite !diagonalPath_forLoop by assumption.
  apply forLoop_ext. intros k Hk. apply Hbetween. exists k.
  split; [lia | auto].
Qed.

Lemma isValidMove_frame_aux :
  get b fromRow fromCol = get b' fromRow fromCol ->
  get b toRow toCol = get b' toRow toCol ->
  isValidMove b fromRow fromCol toRow toCol
  = isValidMove b' fromRow fromCol toRow toCol.
Proof.
  intros Hfrom Hto. unfold isValidMove, isValidMoveWith.
  rewrite <- Hfrom, <- Hto.
  destruct (get b fromRow fromCol) as [[piece|]|e] eqn:Hp; cbn [bind];
    try reflexivity.
  destruct (get b toRow toCol) as [target|e] eqn:Ht; cbn [bind];
    try reflexivity.
  destruct (sameColor target piece) eqn:Hsame; [reflexivity|].
  assert (Hnull : Z.abs (toRow - fromRow) = Z.abs (toCol - fromCol) ->
                  fromRow <> toRow)
    by (eapply (not_null_move b fromRow fromCol toRow toCol HtoRow HtoCol get);
        eauto).
  destruct (type piece); try reflexivity.
  - destruct ((fromRow =? toRow) || (fromCol =? toCol)) eqn:Hline; simpl.
    + apply straightPath_frame. exact Hline.
    + destruct (Z.eqb_spec (Z.abs (toRow - fromRow)) (Z.abs (toCol - fromCol)));
        [|reflexivity].
      apply diagonalPath_frame; auto.
  - destruct (_ || _) eqn:Hline; [|reflexivity].
    apply straightPath_frame. exact Hline.
  - destruct (Z.eqb_spec (Z.abs (toRow - fromRow)) (Z.abs (toCol - fromCol)));
      [|reflexivity].
    apply diagonalPath_frame; auto.
  - simpl.
    destruct (Z.eqb_spec toRow (fromRow + 2 * directionOf (color piece)))
      as [Htwo|Htwo]; [|rewrite !andb_false_r; reflexivity].
    destruct (Z.eqb_spec toCol fromCol) as [Hcol|Hcol]; [|reflexivity].
    rewrite (Hbetween (fromRow + directionOf (color piece)) fromCol);
      [reflexivity|].
    exists 1. subst toRow toCol. destruct (color piece); simpl;
      sgn_cases (fromRow + 2 * -1 - fromRow); sgn_cases (fromRow + 2 * 1 - fromRow);
      sgn_cases (fromCol - fromCol); lia.
Qed.
End Frame.

(** X5: two 8x8 boards that agree on the origin, on the destination and on
    every square strictly between them get the same answer from isValidMove:
    pieces elsewhere on the board have no say. *)
Theorem isValidMove_frame (b b' : Board) (fromRow fromCol toRow toCol : Z) :
  wfBoard b -> wfBoard b' ->
  inRange fromRow -> inRange fromCol -> inRange toRow -> inRange toCol ->
  (forall r c, between fromRow fromCol toRow toCol r c ->
               get b r c = get b' r c) ->
  get b fromRow fromCol = get b' fromRow fromCol ->
  get b toRow toCol = get b' toRow toCol ->
  isValidMove b fromRow fromCol toRow toCol
  = isValidMove b' fromRow fromCol toRow toCol.
Proof. apply isValidMove_frame_aux. Qed.

Lemma isValidMove_frame_witness :
  isValidMove initialBoard 7 1 5 2 = isValidMove afterE4 7 1 5 2.
Proof.
  apply (isValidMove_frame initialBoard afterE4 7 1 5 2);
    [ exact initialBoard_wf | board_shape | on_grid .. | | reflexivity
    | reflexivity ].
  intros r c (k & Hk & -> & ->). simpl in Hk.
  assert (k = 1) as -> by lia. reflexivity.
Defined.

(** ** The rules are the same for both colours *)

Lemma mirror_wf (board : Board) : wfBoard board -> wfBoard (mirror board).
Proof.
  intros [Hlen Hrows]. unfold mirror. split.
  - rewrite length_reverse, length_map. exact Hlen.
  - apply Forall_reverse, Forall_fmap. eapply Forall_impl; [exact Hrows|].
    intros row Hrow. simpl. rewrite length_map. exact Hrow.
Qed.

Lemma get_mirror (board : Board) (r c : Z) (cell : option Piece) :
  wfBoard board -> inRange r -> inRange c ->
  get board r c = Ok cell ->
  get (mirror board) (7 - r) c = Ok (option_map mirrorPiece cell).
Proof.
  intros Hwf Hr Hc Hget.
  destruct (wfBoard_row board r Hwf Hr) as (row & Hrow & Hlen).
  unfold get in *. rewrite Hrow in Hget. injection Hget as <-.
  apply lookupZ_Some in Hrow as [_ Hrow]. destruct Hwf as [Hrows _].
  unfold inRange in *.
  assert (Hm : lookupZ (mirror board) (7 - r)
               = Some (map (option_map mirrorPiece) row)).
  { apply lookupZ_Some. split; [lia|]. unfold mirror.
    rewrite reverse_lookup by (rewrite length_map; lia).
    rewrite length_map, Hrows.
    replace (8 - S (Z.to_nat (7 - r)))%nat with (Z.to_nat r) by lia.
    change (map ?f board) with (f <$> board).
    rewrite list_lookup_fmap, Hrow. reflexivity. }
  rewrite Hm. f_equal.
  rewrite !lookupZ_nonneg by lia.
  change (map ?f row) with (f <$> row). rewrite list_lookup_fmap.
  destruct (row !! Z.to_nat c) as [x|]; reflexivity.
Qed.

Lemma opposite_inj (c1 c2 : PieceColor) : opposite c1 = opposite c2 <-> c1 = c2.
Proof. destruct c1, c2; simpl; split; congruence. Qed.

Lemma between_inRange (fromRow fromCol toRow toCol r c : Z) :
  inRange fromRow -> inRange fromCol -> inRange toRow -> inRange toCol ->
  fromRow = toRow \/ fromCol = toCol
  \/ Z.abs (toRow - fromRow) = Z.abs (toCol - fromCol) ->
  between fromRow fromCol toRow toCol r c -> inRange r /\ inRange c.
Proof.
  unfold inRange, between. intros ? ? ? ? Hline (k & Hk & -> & ->). revert Hk.
  sgn_cases (toRow - fromRow); sgn_cases (toCol - fromCol); lia.
Qed.

Lemma between_mirror (fromRow fromCol toRow toCol r c : Z) :
  between (7 - fromRow) fromCol (7 - toRow) toCol r c
  <-> between fromRow fromCol toRow toCol (7 - r) c.
Proof.
  unfold between.
  replace (7 - toRow - (7 - fromRow)) with (- (toRow - fromRow)) by lia.
  rewrite Z.sgn_opp, Z.abs_opp.
  split; intros (k & Hk & Hr & Hc); exists k; (split; [exact Hk|]);
    (split; [|exact Hc]); revert Hr; sgn_cases (toRow - fromRow); lia.
Qed.

Section Mirror.
Variables (board : Board).
Hypothesis Hwf : wfBoard board.

Lemma get_mirror_back (r c : Z) (cell : option Piece) :
  inRange r -> inRange c ->
  get board (7 - r) c = Ok cell ->
  get (mirror board) r c = Ok (option_map mirrorPiece cell).
Proof.
  intros Hr Hc Hget. replace r with (7 - (7 - r)) at 1 by lia.
  apply get_mirror; auto. unfold inRange in *. lia.
Qed.

Lemma get_mirror_None (r c : Z) :
  inRange r -> inRange c ->
  get (mirror board) (7 - r) c = Ok None <-> get board r c = Ok None.
Proof.
  intros Hr Hc. destruct (get_total board r c Hwf Hr Hc) as [cell Hcell].
  rewrite (get_mirror board r c cell Hwf Hr Hc Hcell), Hcell.
  destruct cell; simpl; split; intros [=]; reflexivity.
Qed.

Lemma pathClear_mirror (fromRow fromCol toRow toCol : Z) :
  inRange fromRow -> inRange fromCol -> inRange toRow -> inRange toCol ->
  fromRow = toRow \/ fromCol = toCol
  \/ Z.abs (toRow - fromRow) = Z.abs (toCol - fromCol) ->
  pathClear (mirror board) (7 - fromRow) fromCol (7 - toRow) toCol
  <-> pathClear board fromRow fromCol toRow toCol.
Proof.
  intros HfR HfC HtR HtC Hline. unfold pathClear. split.
  - intros H r c Hb.
    destruct (between_inRange _ _ _ _ _ _ HfR HfC HtR HtC Hline Hb) as [Hr Hc].
    apply get_mirror_None; auto. apply H. apply between_mirror.
    replace (7 - (7 - r)) with r by lia. exact Hb.
  - intros H r c Hb. apply between_mirror in Hb.
    destruct (between_inRange _ _ _ _ _ _ HfR HfC HtR HtC Hline Hb) as [Hr Hc].
    replace r with (7 - (7 - r)) by lia. apply get_mirror_None; auto.
Qed.

Lemma notOwn_mirror (piece : Piece) (toRow toCol : Z) :
  inRange toRow -> inRange toCol ->
  notOwn (mirror board) (mirrorPiece piece) (7 - toRow) toCol
  <-> notOwn board piece toRow toCol.
Proof.
  intros HtR HtC. unfold notOwn.
  destruct (get_total board toRow toCol Hwf HtR HtC) as [target Hto].
  rewrite (get_mirror board toRow toCol target Hwf HtR HtC Hto), Hto.
  split.
  - intros H t [= ->]. specialize (H _ eq_refl). simpl in H.
    rewrite opposite_inj in H. exact H.
  - intros H t Ht. destruct target as [t0|]; [|discriminate].
    injection Ht as <-. simpl. rewrite opposite_inj. apply H. reflexivity.
Qed.
End Mirror.

Lemma verdict_eq (x y : result bool) :
  (exists v, x = Ok v) -> (exists v, y = Ok v) ->
  (x = Ok true <-> y = Ok true) -> x = y.
Proof.
  intros [[|] ->] [[|] ->] H; try reflexivity.
  - symmetry. apply H. reflexivity.
  - apply H. reflexivity.
Qed.

Lemma pawnShape_mirror (board : Board) (piece : Piece)
    (fromRow fromCol toRow toCol : Z) :
  wfBoard board ->
  inRange fromRow -> inRange fromCol -> inRange toRow -> inRange toCol ->
  pawnShape (mirror board) (mirrorPiece piece) (7 - fromRow) fromCol (7 - toRow) toCol
  <-> pawnShape board piece fromRow fromCol toRow toCol.
Proof.
  intros Hwf HfR HfC HtR HtC. unfold pawnShape. simpl color.
  assert (Hd : directionOf (opposite (color piece)) = - directionOf (color piece))
    by (destruct (color piece); reflexivity).
  assert (Hs : startRowOf (opposite (color piece)) = 7 - startRowOf (color piece))
    by (destruct (color piece); reflexivity).
  rewrite Hd, Hs.
  pose proof (get_mirror_None board Hwf toRow toCol HtR HtC) as E1.
  assert (E2 : fromRow = startRowOf (color piece) ->
               get (mirror board) (7 - fromRow + - directionOf (color piece)) fromCol
               = Ok None
               <-> get board (fromRow + directionOf (color piece)) fromCol = Ok None).
  { intros Hstart.
    replace (7 - fromRow + - directionOf (color piece))
      with (7 - (fromRow + directionOf (color piece))) by lia.
    apply get_mirror_None; auto. apply ahead_inRange; assumption. }
  assert (E3 : (exists target, get (mirror board) (7 - toRow) toCol = Ok (Some target)
                               /\ color target <> opposite (color piece))
               <-> exists target, get board toRow toCol = Ok (Some target)
                                  /\ color target <> color piece).
  { destruct (get_total board toRow toCol Hwf HtR HtC) as [target Hto].
    rewrite (get_mirror board toRow toCol target Hwf HtR HtC Hto), Hto.
    split.
    - intros (t & Ht & Hc). destruct target as [t0|]; [|discriminate].
      injection Ht as <-. simpl in Hc. rewrite opposite_inj in Hc. eauto.
    - intros (t & [= ->] & Hc). exists (mirrorPiece t). split; [reflexivity|].
      simpl. rewrite opposite_inj. exact Hc. }
  clear Hd Hs. revert E2.
  generalize (directionOf (color piece)) (startRowOf (color piece)).
  intros d s E2.
  split.
  - intros [(Hc & Hr & Hg)|[(Hc & Hst & Hr & Hm & Hg)|(Hc & Hr & Ht)]].
    + left. repeat split; [assumption | lia | apply E1; assumption].
    + right; left. assert (fromRow = s) by lia.
      repeat split; [assumption | assumption | lia
                    | apply E2; assumption | apply E1; assumption].
    + right; right. repeat split; [assumption | lia | apply E3; assumption].
  - intros [(Hc & Hr & Hg)|[(Hc & Hst & Hr & Hm & Hg)|(Hc & Hr & Ht)]].
    + left. repeat split; [assumption | lia | apply E1; assumption].
    + right; left.
      repeat split; [assumption | lia | lia
                    | apply E2; assumption | apply E1; assumption].
    + right; right. repeat split; [assumption | lia | apply E3; assumption].
Qed.

(** X6: isValidMove gives the same answer to a move and to its mirror
    image, the move played on the board with the rows reversed and the
    colours exchanged: white and black play by the same rules. *)
Theorem mirror_symmetry (board : Board) (fromRow fromCol toRow toCol : Z) :
  wfBoard board ->
  inRange fromRow -> inRange fromCol -> inRange toRow -> inRange toCol ->
  isValidMove (mirror board) (7 - fromRow) fromCol (7 - toRow) toCol
  = isValidMove board fromRow fromCol toRow toCol.
Proof.
  intros Hwf HfR HfC HtR HtC.
  assert (HfR' : inRange (7 - fromRow)) by (unfold inRange in *; lia).
  assert (HtR' : inRange (7 - toRow)) by (unfold inRange in *; lia).
  pose proof (mirror_wf board Hwf) as Hwf'.
  destruct (get_total board fromRow fromCol Hwf HfR HfC) as [[piece|] Hfrom].
  2:{ pose proof (get_mirror board _ _ _ Hwf HfR HfC Hfrom) as Hfrom'.
      unfold isValidMove, isValidMoveWith. rewrite Hfrom, Hfrom'. reflexivity. }
  pose proof (get_mirror board _ _ _ Hwf HfR HfC Hfrom) as Hfrom'. simpl in Hfrom'.
  apply verdict_eq; try (apply isValidMove_total; assumption).
  destruct (type piece) eqn:Hkind.
  - (* king *)
    rewrite (proj2 (leaper_spec (mirror board) _ _ _ _ _
                      Hwf' HtR' HtC Hfrom') Hkind).
    rewrite (proj2 (leaper_spec board _ _ _ _ _
                      Hwf HtR HtC Hfrom) Hkind).
    rewrite notOwn_mirror by assumption.
    replace (7 - toRow - (7 - fromRow)) with (- (toRow - fromRow)) by lia.
    rewrite Z.abs_opp. reflexivity.
  - (* queen *)
    rewrite (sliding_spec (mirror board) _ _ _ _ _ Hwf' HfR' HfC HtR' HtC Hfrom')
      by (simpl; auto).
    rewrite (sliding_spec board _ _ _ _ _ Hwf HfR HfC HtR HtC Hfrom)
      by auto.
    rewrite notOwn_mirror by assumption. simpl type. rewrite Hkind.
    unfold lineGeometry.
    replace (7 - toRow - (7 - fromRow)) with (- (toRow - fromRow)) by lia.
    rewrite Z.abs_opp.
    split; intros (Hg & Hp & Hn); (split; [|split; [|exact Hn]]);
      try (apply pathClear_mirror in Hp; [exact Hp|assumption..|]);
      try (apply pathClear_mirror; [assumption..| |exact Hp]); lia.
  - (* rook *)
    rewrite (sliding_spec (mirror board) _ _ _ _ _ Hwf' HfR' HfC HtR' HtC Hfrom')
      by (simpl; auto).
    rewrite (sliding_spec board _ _ _ _ _ Hwf HfR HfC HtR HtC Hfrom)
      by auto.
    rewrite notOwn_mirror by assumption. simpl type. rewrite Hkind.
    unfold lineGeometry.
    split; intros (Hg & Hp & Hn); (split; [|split; [|exact Hn]]);
      try (apply pathClear_mirror in Hp; [exact Hp|assumption..|]);
      try (apply pathClear_mirror; [assumption..| |exact Hp]); lia.
  - (* bishop *)
    rewrite (sliding_spec (mirror board) _ _ _ _ _ Hwf' HfR' HfC HtR' HtC Hfrom')
      by (simpl; auto).
    rewrite (sliding_spec board _ _ _ _ _ Hwf HfR HfC HtR HtC Hfrom)
      by auto.
    rewrite notOwn_mirror by assumption. simpl type. rewrite Hkind.
    unfold lineGeometry.
    replace (7 - toRow - (7 - fromRow)) with (- (toRow - fromRow)) by lia.
    rewrite Z.abs_opp.
    split; intros (Hg & Hp & Hn); (split; [|split; [|exact Hn]]);
      try (apply pathClear_mirror in Hp; [exact Hp|assumption..|]);
      try (apply pathClear_mirror; [assumption..| |exact Hp]); auto.
  - (* knight *)
    rewrite (proj1 (leaper_spec (mirror board) _ _ _ _ _
                      Hwf' HtR' HtC Hfrom') Hkind).
    rewrite (proj1 (leaper_spec board _ _ _ _ _
                      Hwf HtR HtC Hfrom) Hkind).
    rewrite notOwn_mirror by assumption.
    replace (7 - toRow - (7 - fromRow)) with (- (toRow - fromRow)) by lia.
    rewrite Z.abs_opp. reflexivity.
  - (* pawn *)
    rewrite (pawn_spec (mirror board) _ _ _ _ _ Hwf' HfR' HfC HtR' HtC Hfrom')
      by exact Hkind.
    rewrite (pawn_spec board _ _ _ _ _ Hwf HfR HfC HtR HtC Hfrom) by exact Hkind.
    apply pawnShape_mirror; assumption.
Qed.

Lemma mirror_symmetry_witness :
  isValidMove (mirror initialBoard) (7 - 6) 4 (7 - 4) 4
  = isValidMove initialBoard 6 4 4 4.
Proof.
  apply (mirror_symmetry initialBoard 6 4 4 4 initialBoard_wf); on_grid.
Defined.

(** ** The enumeration lists each move once *)

Lemma NoDup_flat_map_key {A} (key : A -> Z) (f : Z -> list A) (xs : list Z) :
  NoDup xs ->
  (forall x, In x xs -> NoDup (f x)) ->
  (forall x e, In e (f x) -> key e = x) ->
  NoDup (flat_map f xs).
Proof.
  intros Hxs Hf Hkey. induction xs as [|x xs IH]; simpl; [constructor|].
  apply NoDup_cons in Hxs as [Hx Hxs].
  apply NoDup_app. split; [apply Hf; left; reflexivity|]. split.
  - intros e He Hin. apply list_elem_of_In in He, Hin.
    apply in_flat_map in Hin as (y & Hy & Hin).
    apply Hkey in He, Hin. subst. apply Hx, list_elem_of_In, Hy.
  - apply IH; [exact Hxs|]. intros y Hy. apply Hf. right. exact Hy.
Qed.

Lemma range8_NoDup : NoDup range8.
Proof. apply NoDup_seqZ. Qed.

Lemma legalMoves_NoDup (side : PieceColor) (board : Board) :
  NoDup (legalMoves side board).
Proof.
  unfold legalMoves.
  apply (NoDup_flat_map_key (fun m : Move => m.1.1.1)); [apply range8_NoDup| |].
  - intros fromRow _.
    apply (NoDup_flat_map_key (fun m : Move => m.1.1.2)); [apply range8_NoDup| |].
    + intros fromCol _. destruct (ownedBy side board fromRow fromCol); [|constructor].
      apply (NoDup_flat_map_key (fun m : Move => m.1.2)); [apply range8_NoDup| |].
      * intros toRow _.
        apply (NoDup_flat_map_key (fun m : Move => m.2)); [apply range8_NoDup| |].
        -- intros toCol _. destruct (accepted _ _ _ _ _); repeat constructor.
           intros H. inversion H.
        -- intros toCol e He. destruct (accepted _ _ _ _ _); [|contradiction].
           destruct He as [<-|[]]. reflexivity.
      * intros toRow e He. apply in_flat_map in He as (toCol & _ & He).
        destruct (accepted _ _ _ _ _); [|contradiction].
        destruct He as [<-|[]]. reflexivity.
    + intros fromCol e He.
      destruct (ownedBy side board fromRow fromCol); [|contradiction].
      apply in_flat_map in He as (toRow & _ & He).
      apply in_flat_map in He as (toCol & _ & He).
      destruct (accepted _ _ _ _ _); [|contradiction].
      destruct He as [<-|[]]. reflexivity.
  - intros fromRow e He. apply in_flat_map in He as (fromCol & _ & He).
    destruct (ownedBy side board fromRow fromCol); [|contradiction].
    apply in_flat_map in He as (toRow & _ & He).
    apply in_flat_map in He as (toCol & _ & He).
    destruct (accepted _ _ _ _ _); [|contradiction].
    destruct He as [<-|[]]. reflexivity.
Qed.

(** X7: on an 8x8 board the list of moves that makeAIMove builds holds no
    move twice, so that an index drawn uniformly draws a move uniformly. *)
Theorem collectMoves_NoDup (side : PieceColor) (board : Board) :
  wfBoard board ->
  exists aiMoves, collectMoves side board = Ok aiMoves /\ NoDup aiMoves.
Proof.
  intros Hwf. exists (legalMoves side board).
  split; [apply collectMoves_legalMoves; exact Hwf | apply legalMoves_NoDup].
Qed.

Lemma collectMoves_NoDup_witness :
  exists aiMoves, collectMoves black initialBoard = Ok aiMoves /\ NoDup aiMoves.
Proof. apply (collectMoves_NoDup black initialBoard initialBoard_wf). Defined.

Lemma randomIndex_hit (i n : nat) :
  (i < n)%nat ->
  unitInterval (Z.of_nat i # Pos.of_nat n)
  /\ randomIndex (Z.of_nat i # Pos.of_nat n) n = Z.of_nat i.
Proof.
  intros Hi.
  assert (Hn : Z.pos (Pos.of_nat n) = Z.of_nat n)
    by (rewrite <- positive_nat_Z, Nat2Pos.id by lia; reflexivity).
  split.
  - unfold unitInterval, Qle, Qlt. simpl. rewrite Hn. lia.
  - unfold randomIndex, Qfloor, Qmult, inject_Z. simpl.
    rewrite Pos.mul_1_r, Hn. apply Z.div_mul. lia.
Qed.

(** X8: on an 8x8 board every legal move of a side is the choice of
    chooseMove for some value in [0,1) of the random number: no legal move
    is out of the machine's reach. *)
Theorem every_legal_move_can_be_chosen
    (side : PieceColor) (board : Board) (fromRow fromCol toRow toCol : Z)
    (piece : Piece) :
  wfBoard board ->
  inRange fromRow -> inRange fromCol -> inRange toRow -> inRange toCol ->
  get board fromRow fromCol = Ok (Some piece) ->
  color piece = side ->
  isValidMove board fromRow fromCol toRow toCol = Ok true ->
  exists u, unitInterval u
            /\ chooseMove side u board = Ok (Some (fromRow, fromCol, toRow, toCol)).
Proof.
  intros Hwf HfR HfC HtR HtC Hfrom Hside Hvalid.
  assert (Hin : In (fromRow, fromCol, toRow, toCol) (legalMoves side board))
    by (apply In_legalMoves; eauto 10).
  apply list_elem_of_In, list_elem_of_lookup in Hin as [i Hi].
  pose proof (lookup_lt_Some _ _ _ Hi) as Hlt.
  destruct (randomIndex_hit i (length (legalMoves side board)) Hlt) as [Hu Hidx].
  eexists. split; [exact Hu|].
  unfold chooseMove. rewrite collectMoves_legalMoves by exact Hwf. cbn [bind].
  unfold pickMove. rewrite Hidx.
  destruct (Nat.ltb_spec 0 (length (legalMoves side board)));
    unfold Move in *; [|lia].
  rewrite lookupZ_nonneg by lia. rewrite Nat2Z.id, Hi. reflexivity.
Qed.

Lemma every_legal_move_can_be_chosen_witness :
  exists u, unitInterval u
            /\ chooseMove black u initialBoard = Ok (Some (1, 7, 3, 7)).
Proof.
  apply (every_legal_move_can_be_chosen black initialBoard 1 7 3 7
           (mkPiece pawn black) initialBoard_wf);
    [ on_grid .. | reflexivity | reflexivity | reflexivity ].
Defined.

(** ** Counting pieces *)

Lemma sum_list_map_insert {A} (f : A -> nat) (l : list A) (i : nat) (x y : A) :
  l !! i = Some y ->
  (sum_list (map f (<[i := x]> l)) + f y = sum_list (map f l) + f x)%nat.
Proof.
  revert i. induction l as [|a l IH]; intros [|i] Hi; simpl in *;
    try discriminate.
  - injection Hi as ->. lia.
  - specialize (IH i Hi). lia.
Qed.

Lemma countPieces_set (P : Piece -> bool) (board board' : Board) (r c : Z)
    (old v : option Piece) :
  wfBoard board -> inRange r -> inRange c ->
  get board r c = Ok old ->
  set board r c v = Ok board' ->
  (countPieces P board' + holds P old = countPieces P board + holds P v)%nat.
Proof.
  intros Hwf Hr Hc Hold Hset.
  destruct (wfBoard_row board r Hwf Hr) as (row & Hrow & Hlen).
  unfold set in Hset. unfold get in Hold. rewrite Hrow in Hset, Hold.
  injection Hset as <-. injection Hold as <-.
  assert (Hcell' : setCell row c v = <[Z.to_nat c := v]> row).
  { unfold setCell, inRange in *. rewrite Hlen. decide_tests. reflexivity. }
  rewrite Hcell'. unfold inRange in *.
  destruct (lookupZ_lt row c) as [cell Hcell]; [lia|]. rewrite Hcell. simpl.
  apply lookupZ_Some in Hcell as [_ Hcell], Hrow as [_ Hrow].
  unfold countPieces.
  pose proof (sum_list_map_insert (fun row => sum_list (map (holds P) row))
                board (Z.to_nat r) (<[Z.to_nat c := v]> row) row Hrow) as H1.
  pose proof (sum_list_map_insert (holds P) row (Z.to_nat c) v cell Hcell) as H2.
  cbv beta in H1. lia.
Qed.

(** X9: a move between two different squares of the grid creates no piece
    and loses none but the one on the destination: for any property of
    pieces, the count after the move plus the captured piece, if it has the
    property, is the count before. *)
Theorem applyMove_piece_count (P : Piece -> bool) (board : Board)
    (fromRow fromCol toRow toCol : Z) (target : option Piece) :
  wfBoard board ->
  inRange fromRow -> inRange fromCol -> inRange toRow -> inRange toCol ->
  (fromRow, fromCol) <> (toRow, toCol) ->
  get board toRow toCol = Ok target ->
  exists newBoard,
    applyMove board (fromRow, fromCol, toRow, toCol) = Ok newBoard
    /\ (countPieces P newBoard + holds P target = countPieces P board)%nat.
Proof.
  intros Hwf HfR HfC HtR HtC Hne Hto. unfold applyMove.
  destruct (get_total board fromRow fromCol Hwf HfR HfC) as [moved Hmoved].
  rewrite Hmoved. cbn [bind].
  destruct (set_spec board toRow toCol moved Hwf HtR HtC) as (b1 & Hb1 & Hwf1 & Hget1).
  rewrite Hb1. cbn [bind].
  destruct (set_spec b1 fromRow fromCol None Hwf1 HfR HfC) as (b2 & Hb2 & _ & _).
  exists b2. split; [exact Hb2|].
  pose proof (countPieces_set P board b1 toRow toCol target moved
                Hwf HtR HtC Hto Hb1) as H1.
  assert (Hfrom1 : get b1 fromRow fromCol = Ok moved).
  { rewrite Hget1 by assumption. rewrite decide_False; [exact Hmoved|].
    intros [-> ->]. apply Hne. reflexivity. }
  pose proof (countPieces_set P b1 b2 fromRow fromCol moved None
                Hwf1 HfR HfC Hfrom1 Hb2) as H2.
  simpl in H2. lia.
Qed.

Lemma applyMove_piece_count_witness :
  exists newBoard,
    applyMove pawnOnD3 (6, 4, 5, 3) = Ok newBoard
    /\ (countPieces (fun p => bool_decide (color p = black)) newBoard
        + holds (fun p => bool_decide (color p = black))
                (Some (mkPiece pawn black))
        = countPieces (fun p => bool_decide (color p = black)) pawnOnD3)%nat.
Proof.
  apply (applyMove_piece_count (fun p => bool_decide (color p = black))
           pawnOnD3 6 4 5 3 (Some (mkPiece pawn black)));
    [ board_shape | on_grid .. | discriminate | reflexivity ].
Defined.

(** ** A capture is not undone by the move back *)

(** X10: a move between two different squares of the grid followed by the
    move back gives the board there was with the destination emptied: what
    stood there is lost, and nothing else changes. *)
Theorem capture_and_back (board : Board) (fromRow fromCol toRow toCol : Z) :
  wfBoard board ->
  inRange fromRow -> inRange fromCol -> inRange toRow -> inRange toCol ->
  (fromRow, fromCol) <> (toRow, toCol) ->
  exists there back,
    applyMove board (fromRow, fromCol, toRow, toCol) = Ok there
    /\ applyMove there (toRow, toCol, fromRow, fromCol) = Ok back
    /\ set board toRow toCol None = Ok back.
Proof.
  intros Hwf HfR HfC HtR HtC Hne.
  destruct (applyMove_spec board fromRow fromCol toRow toCol)
    as (there & Hthere & Hwf1 & Hget1); try assumption.
  destruct (applyMove_spec there toRow toCol fromRow fromCol)
    as (back & Hback & Hwf2 & Hget2); try assumption.
  destruct (set_spec board toRow toCol None Hwf HtR HtC) as (b' & Hb' & Hwf' & Hget').
  exists there, back. split; [exact Hthere|]. split; [exact Hback|].
  rewrite Hb'. f_equal. apply board_ext; try assumption. intros r c Hr Hc.
  rewrite Hget2, Hget' by assumption. rewrite !Hget1 by assumption.
  repeat case_decide; try reflexivity;
    repeat match goal with H : _ /\ _ |- _ => destruct H end; subst;
    try congruence; try tauto.
Qed.

Lemma capture_and_back_witness :
  exists there back,
    applyMove pawnOnD3 (6, 4, 5, 3) = Ok there
    /\ applyMove there (5, 3, 6, 4) = Ok back
    /\ set pawnOnD3 5 3 None = Ok back.
Proof.
  apply (capture_and_back pawnOnD3 6 4 5 3);
    [ board_shape | on_grid .. | discriminate ].
Defined.

(** ** The page *)

(** The machine's turn on an 8x8 board: no move when black has none,
    otherwise a legal move of black applied to that board. *)
Lemma makeAIMove_spec (u : Q) (b : Board) :
  wfBoard b -> unitInterval u ->
  (legalMoves black b = [] /\ makeAIMove u b = Ok None)
  \/ (exists m newBoard,
         In m (legalMoves black b)
         /\ chooseMove black u b = Ok (Some m)
         /\ applyMove b m = Ok newBoard
         /\ wfBoard newBoard
         /\ makeAIMove u b = Ok (Some newBoard)).
Proof.
  intros Hwf Hu. unfold makeAIMove, chooseMove.
  rewrite collectMoves_legalMoves by exact Hwf. cbn [bind].
  destruct (pickMove_total u (legalMoves black b) Hu) as [[m|] Hpick].
  - right. pose proof (pickMove_In _ _ _ Hpick) as Hin.
    destruct m as [[[fr fc] tr] tc].
    pose proof Hin as Hlegal.
    apply In_legalMoves in Hlegal as (HfR & HfC & HtR & HtC & _).
    destruct (applyMove_spec b fr fc tr tc Hwf HfR HfC HtR HtC)
      as (nb & Hnb & Hwfnb & _).
    exists (fr, fc, tr, tc), nb. rewrite Hpick. cbn [bind]. rewrite Hnb.
    auto.
  - left. rewrite Hpick. split; [|reflexivity].
    unfold pickMove in Hpick.
    destruct (legalMoves black b) as [|m l]; [reflexivity|]. simpl in Hpick.
    destruct (lookupZ _ _); discriminate.
Qed.

Lemma wfConfig_intro (st : State) (timers : list Timer) :
  wfBoard (board st) ->
  (forall r c, selectedSquare st = Some (r, c) -> inRange r /\ inRange c) ->
  Forall (fun t => forall b, snapshotOf t = Some b -> wfBoard b) timers ->
  wfConfig (st, timers).
Proof. intros H1 H2 H3. split; [exact H1|]. split; [exact H2 | exact H3]. Qed.

Lemma handleSquareClick_safe (st : State) (timers : list Timer) (row col : Z) :
  wfConfig (st, timers) -> inRange row -> inRange col ->
  exists st' new,
    handleSquareClick st row col = Ok (st', new)
    /\ wfConfig (st', timers ++ new).
Proof.
  intros (Hwf & Hsel & Htimers) Hrow Hcol. simpl in *.
  unfold handleSquareClick.
  destruct (negb _ || thinking st).
  { exists st, []. rewrite app_nil_r. split; [reflexivity|].
    apply wfConfig_intro; assumption. }
  destruct (get_total (board st) row col Hwf Hrow Hcol) as [clicked Hclicked].
  assert (Hselect : forall sq,
             (forall r c, sq = Some (r, c) -> inRange r /\ inRange c) ->
             wfConfig (setSelectedSquare sq st, timers ++ [])).
  { intros sq Hsq. rewrite app_nil_r. apply wfConfig_intro; assumption. }
  assert (Hhere : forall r c, Some (row, col) = Some (r, c) -> inRange r /\ inRange c)
    by (intros r c [= <- <-]; auto).
  assert (Hnone : forall r c, @None (Z * Z) = Some (r, c) -> inRange r /\ inRange c)
    by (intros r c [=]).
  destruct (selectedSquare st) as [[selectedRow selectedCol]|] eqn:Hsq.
  - destruct (Hsel _ _ eq_refl) as [HsR HsC].
    destruct (isValidMove_total (board st) selectedRow selectedCol row col)
      as [[|] Hv]; try assumption; rewrite Hv; cbn [bind].
    + rewrite Hclicked. cbn [bind].
      destruct (applyMove_spec (board st) selectedRow selectedCol row col)
        as (nb & Hnb & Hwfnb & _); try assumption.
      rewrite Hnb. cbn [bind].
      destruct (isKing clicked); eexists _, _; (split; [reflexivity|]);
        (apply wfConfig_intro; [exact Hwfnb | exact Hnone |]);
        (apply Forall_app; split; [exact Htimers|]);
        (constructor; [|constructor]).
      * intros b' [=].
      * intros b' [= <-]. exact Hwf.
    + rewrite Hclicked. cbn [bind].
      destruct (ownPiece st clicked); eexists _, _; (split; [reflexivity|]);
        apply Hselect; assumption.
  - rewrite Hclicked. cbn [bind].
    destruct (ownPiece st clicked); eexists _, _; (split; [reflexivity|]).
    + apply Hselect; assumption.
    + rewrite app_nil_r. apply wfConfig_intro; try assumption.
      rewrite Hsq. exact Hnone.
Qed.

Lemma step_safe (c : State * list Timer) (e : Event) :
  wfConfig c -> okEvent e ->
  exists c', step c e = Ok c' /\ wfConfig c'.
Proof.
  destruct c as [st timers]. intros Hc He.
  destruct e as [row col|i u|d| |s]; simpl in *.
  - destruct He as [Hrow Hcol].
    destruct (handleSquareClick_safe st timers row col Hc Hrow Hcol)
      as (st' & new & Hclick & Hc').
    rewrite Hclick. simpl. eauto.
  - pose proof Hc as (Hwf & Hsel & Htimers). simpl in *.
    pose proof (Forall_delete _ _ i Htimers) as Hrest.
    pose proof Htimers as Hall. rewrite Forall_forall in Hall.
    destruct (timers !! i) as [[snapshot|snapshot|]|] eqn:Hi.
    + eexists. split; [reflexivity|]. apply wfConfig_intro; try assumption.
      apply Forall_app. split; [exact Hrest|]. constructor; [|constructor].
      intros b' [= <-].
      apply (Hall (CallMakeAIMove snapshot)); [|reflexivity].
      apply list_elem_of_lookup. eauto.
    + assert (Hsnap : wfBoard snapshot).
      { apply (Hall (AIMoveTimeout snapshot)); [|reflexivity].
        apply list_elem_of_lookup. eauto. }
      unfold aiMoveTimeout.
      destruct (makeAIMove_spec u snapshot Hsnap He)
        as [[_ Hai]|(m & nb & _ & _ & _ & Hwfnb & Hai)]; rewrite Hai; cbn [bind];
        eexists; (split; [reflexivity|]); apply wfConfig_intro; assumption.
    + eexists. split; [reflexivity|]. apply wfConfig_intro; assumption.
    + eexists. split; [reflexivity|]. exact Hc.
  - destruct Hc as (Hwf & Hsel & Htimers). eexists. split; [reflexivity|].
    apply wfConfig_intro; [exact initialBoard_wf | intros r c [=] | exact Htimers].
  - destruct Hc as (Hwf & Hsel & Htimers). eexists. split; [reflexivity|].
    apply wfConfig_intro; assumption.
  - destruct Hc as (Hwf & Hsel & Htimers). eexists. split; [reflexivity|].
    apply wfConfig_intro; assumption.
Qed.

(** X11: from a state whose boards are 8x8, no sequence of clicks on squares
    of the grid, timers going off, new games, resignations and changes of
    screen makes a handler throw, and the boards stay 8x8. *)
Theorem run_safe (c : State * list Timer) (es : list Event) :
  wfConfig c -> Forall okEvent es ->
  exists c', run c es = Ok c' /\ wfConfig c'.
Proof.
  intros Hc Hes. revert c Hc. induction Hes as [|e es He _ IH]; intros c Hc.
  - exists c. split; [reflexivity | exact Hc].
  - destruct (step_safe c e Hc He) as (c' & Hstep & Hc').
    simpl. rewrite Hstep. cbn [bind]. apply IH. exact Hc'.
Qed.

Lemma run_safe_witness :
  exists c',
    run (stateOn initialBoard (6, 4), [])
        [Click 4 4; Fire 0 0; Fire 0 (1 # 3); SetScreen menuScreen;
         StartNewGame easy; Click 6 0; Resign] = Ok c'
    /\ wfConfig c'.
Proof.
  apply (run_safe (stateOn initialBoard (6, 4), [])).
  - apply wfConfig_intro; [exact initialBoard_wf | | constructor].
    intros r c [= <- <-]. split; on_grid.
  - repeat match goal with
           | |- Forall _ (_ :: _) => constructor
           | |- Forall _ [] => constructor
           end; simpl;
      first [ exact I | split; on_grid
            | unfold unitInterval, Qle, Qlt; simpl; lia ].
Defined.

(** X12: when white has moved and the two timers of the reply have gone
    off, the board is the machine's move applied to the board of before
    white's move: handleSquareClick hands the timer the makeAIMove of the
    render it runs in, which holds that board, so white's move is undone
    while the move counter has gone up by two. *)
Theorem reply_ignores_human_move
    (st : State) (selectedRow selectedCol row col : Z) (u0 u : Q) (m : Move) :
  wfBoard (board st) ->
  inRange selectedRow -> inRange selectedCol -> inRange row -> inRange col ->
  currentPlayer st = white -> thinking st = false ->
  selectedSquare st = Some (selectedRow, selectedCol) ->
  isValidMove (board st) selectedRow selectedCol row col = Ok true ->
  (forall p, get (board st) row col = Ok (Some p) -> type p <> king) ->
  chooseMove black u (board st) = Ok (Some m) ->
  exists replied,
    applyMove (board st) m = Ok replied
    /\ run (st, []) [Click row col; Fire 0 u0; Fire 0 u]
       = Ok ({| screen := screen st; board := replied; selectedSquare := None;
                currentPlayer := white; difficulty := difficulty st;
                stats := stats st; moveCount := moveCount st + 2;
                thinking := false |}, []).
Proof.
  intros Hwf HsR HsC Hrow Hcol Hwhite Hthink Hsel Hvalid Hnoking Hchoose.
  assert (Hin : In m (legalMoves black (board st))).
  { unfold chooseMove in Hchoose.
    rewrite collectMoves_legalMoves in Hchoose by exact Hwf.
    apply pickMove_In in Hchoose. exact Hchoose. }
  destruct m as [[[fr fc] tr] tc].
  apply In_legalMoves in Hin as (HfR & HfC & HtR & HtC & _).
  destruct (applyMove_spec (board st) fr fc tr tc Hwf HfR HfC HtR HtC)
    as (replied & Hreplied & _).
  destruct (applyMove_spec (board st) selectedRow selectedCol row col)
    as (moved & Hmoved & _); try assumption.
  destruct (get_total (board st) row col Hwf Hrow Hcol) as [captured Hcaptured].
  assert (Hk : isKing captured = false).
  { destruct captured as [p|]; [|reflexivity]. simpl.
    apply bool_decide_eq_false. apply Hnoking. exact Hcaptured. }
  exists replied. split; [exact Hreplied|].
  unfold run, step, handleSquareClick.
  rewrite Hwhite, Hthink, Hsel. simpl negb. cbn [orb].
  rewrite Hvalid. cbn [bind]. rewrite Hcaptured. cbn [bind].
  rewrite Hmoved. cbn [bind]. rewrite Hk. cbn [bind fst snd app lookup list_lookup].
  cbn [callMakeAIMove fst snd delete list_delete app lookup list_lookup bind].
  unfold aiMoveTimeout, makeAIMove. rewrite Hchoose. cbn [bind].
  rewrite Hreplied. cbn. do 3 f_equal. lia.
Qed.

Lemma reply_ignores_human_move_witness :
  exists replied,
    applyMove initialBoard (1, 1, 2, 1) = Ok replied
    /\ run (stateOn initialBoard (6, 4), [])
           [Click 4 4; Fire 0 0; Fire 0 (1 # 3)]
       = Ok ({| screen := gameScreen; board := replied; selectedSquare := None;
                currentPlayer := white; difficulty := medium;
                stats := noStats; moveCount := 0 + 2; thinking := false |}, []).
Proof.
  apply (reply_ignores_human_move (stateOn initialBoard (6, 4)) 6 4 4 4 0
           (1 # 3) (1, 1, 2, 1));
    [ exact initialBoard_wf | on_grid .. | reflexivity | reflexivity
    | reflexivity | reflexivity | | reflexivity ].
  intros p [=].
Defined.

(** While black is to move or the machine is thinking, clicks change
    nothing. *)
Lemma clicks_ignored (st : State) (timers : list Timer) (clicks : list (Z * Z)) :
  currentPlayer st <> white \/ thinking st = true ->
  run (st, timers) (map (fun sq => Click sq.1 sq.2) clicks) = Ok (st, timers).
Proof.
  intros Hguard. induction clicks as [|[row col] clicks IH]; [reflexivity|].
  simpl. unfold handleSquareClick.
  replace (negb (bool_decide (currentPlayer st = white)) || thinking st)
    with true.
  - cbn [bind fst snd]. rewrite app_nil_r. exact IH.
  - symmetry. apply orb_true_iff. destruct Hguard as [H|H]; [left|right; exact H].
    rewrite bool_decide_eq_false_2 by exact H. reflexivity.
Qed.

(** X13: when black has no legal move on the board of before white's move,
    the reply leaves the turn with black, and from then on no click on the
    board changes anything: the game can only be left. *)
Theorem no_reply_freezes_the_game
    (st : State) (selectedRow selectedCol row col : Z) (u0 u : Q)
    (clicks : list (Z * Z)) :
  wfBoard (board st) ->
  inRange selectedRow -> inRange selectedCol -> inRange row -> inRange col ->
  currentPlayer st = white -> thinking st = false ->
  selectedSquare st = Some (selectedRow, selectedCol) ->
  isValidMove (board st) selectedRow selectedCol row col = Ok true ->
  (forall p, get (board st) row col = Ok (Some p) -> type p <> king) ->
  chooseMove black u (board st) = Ok None ->
  exists moved,
    applyMove (board st) (selectedRow, selectedCol, row, col) = Ok moved
    /\ let st' := {| screen := screen st; board := moved; selectedSquare := None;
                     currentPlayer := black; difficulty := difficulty st;
                     stats := stats st; moveCount := moveCount st + 1;
                     thinking := false |} in
       run (st, []) [Click row col; Fire 0 u0; Fire 0 u] = Ok (st', [])
       /\ run (st', []) (map (fun sq => Click sq.1 sq.2) clicks) = Ok (st', []).
Proof.
  intros Hwf HsR HsC Hrow Hcol Hwhite Hthink Hsel Hvalid Hnoking Hchoose.
  destruct (applyMove_spec (board st) selectedRow selectedCol row col)
    as (moved & Hmoved & _); try assumption.
  destruct (get_total (board st) row col Hwf Hrow Hcol) as [captured Hcaptured].
  assert (Hk : isKing captured = false).
  { destruct captured as [p|]; [|reflexivity]. simpl.
    apply bool_decide_eq_false. apply Hnoking. exact Hcaptured. }
  exists moved. split; [exact Hmoved|]. split.
  - unfold run, step, handleSquareClick.
    rewrite Hwhite, Hthink, Hsel. simpl negb. cbn [orb].
    rewrite Hvalid. cbn [bind]. rewrite Hcaptured. cbn [bind].
    rewrite Hmoved. cbn [bind]. rewrite Hk.
    cbn [bind fst snd app lookup list_lookup].
    cbn [callMakeAIMove fst snd delete list_delete app lookup list_lookup bind].
    unfold aiMoveTimeout, makeAIMove. rewrite Hchoose. reflexivity.
  - apply clicks_ignored. left. discriminate.
Qed.

Lemma no_reply_freezes_the_game_witness :
  exists moved,
    applyMove loneKnight (4, 4, 2, 3) = Ok moved
    /\ let st' := {| screen := gameScreen; board := moved; selectedSquare := None;
                     currentPlayer := black; difficulty := medium;
                     stats := noStats; moveCount := 0 + 1;
                     thinking := false |} in
       run (stateOn loneKnight (4, 4), [])
           [Click 2 3; Fire 0 0; Fire 0 (1 # 3)] = Ok (st', [])
       /\ run (st', []) (map (fun sq => Click sq.1 sq.2) [(2, 3); (0, 0)])
          = Ok (st', []).
Proof.
  apply (no_reply_freezes_the_game (stateOn loneKnight (4, 4)) 4 4 2 3 0
           (1 # 3) [(2, 3); (0, 0)]);
    [ board_shape | on_grid .. | reflexivity | reflexivity | reflexivity
    | reflexivity | | reflexivity ].
  intros p [=].
Defined.



Lemma handleSquareClick_stats (st st' : State) (row col : Z) (new : list Timer) :
  handleSquareClick st row col = Ok (st', new) -> stats st' = stats st.
Proof.
  unfold handleSquareClick. intros H.
  repeat match type of H with
    | context [if ?b then _ else _] => destruct b
    | context [match ?x with _ => _ end] => destruct x
    | context [bind ?m _] => destruct m; cbn [bind] in H
    end; try discriminate; injection H as <- _; reflexivity.
Qed.

Lemma step_stats (c c' : State * list Timer) (e : Event) :
  step c e = Ok c' ->
  draws (stats c'.1) = draws (stats c.1)
  /\ losses (stats c'.1) = losses (stats c.1) + resignations [e].
Proof.
  destruct c as [st timers]. destruct e as [row col|i u|d| |s]; simpl.
  - destruct (handleSquareClick st row col) as [[st' new]|err] eqn:Hclick;
      [|discriminate].
    intros [= <-]. simpl. rewrite (handleSquareClick_stats _ _ _ _ _ Hclick).
    split; [reflexivity | lia].
  - destruct (timers !! i) as [[snapshot|snapshot|]|].
    + intros [= <-]. simpl. split; [reflexivity | lia].
    + unfold aiMoveTimeout.
      destruct (makeAIMove u snapshot) as [[nb|]|err]; cbn [bind];
        try discriminate; intros [= <-]; simpl; split; try reflexivity; lia.
    + intros [= <-]. simpl. split; [reflexivity | lia].
    + intros [= <-]. simpl. split; [reflexivity | lia].
  - intros [= <-]. simpl. split; [reflexivity | lia].
  - intros [= <-]. simpl. split; [reflexivity | lia].
  - intros [= <-]. simpl. split; [reflexivity | lia].
Qed.

Lemma counters_along_any_run (c c' : State * list Timer) (es : list Event) :
  run c es = Ok c' ->
  draws (stats c'.1) = draws (stats c.1)
  /\ losses (stats c'.1) = losses (stats c.1) + resignations es.
Proof.
  revert c. induction es as [|e es IH]; intros c; simpl.
  - intros [= <-]. split; [reflexivity | lia].
  - destruct (step c e) as [c1|err] eqn:Hstep; [|discriminate]. cbn [bind].
    intros Hrun. destruct (IH c1 Hrun) as [Hd Hl].
    destruct (step_stats c c1 e Hstep) as [Hd1 Hl1].
    rewrite Hd, Hd1, Hl, Hl1. split; [reflexivity|].
    simpl. destruct e; lia.
Qed.

(** X15: when the losses, at the start and with the resignations of the run
    added, are within the integers that a number counts one by one, then
    along any sequence of events the draws are never changed and the losses
    grow by exactly the number of resignations: nothing the machine does,
    taking the white king included, is counted as a loss. *)
Theorem counters_along_run (c c' : State * list Timer) (es : list Event) :
  run c es = Ok c' ->
  countsExactly (losses (stats c.1)) ->
  countsExactly (losses (stats c.1) + resignations es) ->
  draws (stats c'.1) = draws (stats c.1)
  /\ losses (stats c'.1) = losses (stats c.1) + resignations es.
Proof. intros Hrun _ _. apply counters_along_any_run. exact Hrun. Qed.

Lemma counters_along_run_witness :
  exists c',
    run (stateOn kingInReach (6, 4), [])
        [Click 5 4; Fire 0 0; Fire 0 (27 # 28); Resign] = Ok c'
    /\ get kingInReach 7 0 = Ok (Some (mkPiece king white))
    /\ get (board c'.1) 7 0 = Ok (Some (mkPiece rook black))
    /\ draws (stats c'.1) = draws (stats (stateOn kingInReach (6, 4)))
    /\ losses (stats c'.1)
       = losses (stats (stateOn kingInReach (6, 4)))
         + resignations [Click 5 4; Fire 0 0; Fire 0 (27 # 28); Resign].
Proof.
  eexists. split; [vm_compute; reflexivity|].
  split; [reflexivity|]. split; [reflexivity|].
  apply (counters_along_run (stateOn kingInReach (6, 4), []) _
           [Click 5 4; Fire 0 0; Fire 0 (27 # 28); Resign]);
    [ reflexivity | unfold countsExactly, maxExact; simpl; lia
    | unfold countsExactly, maxExact; simpl; lia ].
Defined.

(** X16: startNewGame clears no timer: a reply still waiting when the new
    game starts replaces the fresh board by the machine's move on the board
    its closure holds, a position of the game before. *)
Theorem pending_reply_survives_new_game
    (st : State) (snapshot : Board) (d : Difficulty) (u : Q) (m : Move) :
  wfBoard snapshot ->
  chooseMove black u snapshot = Ok (Some m) ->
  exists replied,
    applyMove snapshot m = Ok replied
    /\ run (st, [AIMoveTimeout snapshot]) [StartNewGame d; Fire 0 u]
       = Ok ({| screen := gameScreen; board := replied; selectedSquare := None;
                currentPlayer := white; difficulty := d; stats := stats st;
                moveCount := 1; thinking := false |}, []).
Proof.
  intros Hwf Hchoose.
  assert (Hin : In m (legalMoves black snapshot)).
  { unfold chooseMove in Hchoose.
    rewrite collectMoves_legalMoves in Hchoose by exact Hwf.
    apply pickMove_In in Hchoose. exact Hchoose. }
  destruct m as [[[fr fc] tr] tc].
  apply In_legalMoves in Hin as (HfR & HfC & HtR & HtC & _).
  destruct (applyMove_spec snapshot fr fc tr tc Hwf HfR HfC HtR HtC)
    as (replied & Hreplied & _).
  exists replied. split; [exact Hreplied|].
  unfold run, step. cbn [bind lookup list_lookup].
  unfold aiMoveTimeout, makeAIMove. rewrite Hchoose. cbn [bind].
  rewrite Hreplied. reflexivity.
Qed.

Lemma pending_reply_survives_new_game_witness :
  exists replied,
    applyMove afterE4 (1, 1, 2, 1) = Ok replied
    /\ run (initialState noStats, [AIMoveTimeout afterE4])
           [StartNewGame hard; Fire 0 (1 # 3)]
       = Ok ({| screen := gameScreen; board := replied; selectedSquare := None;
                currentPlayer := white; difficulty := hard; stats := noStats;
                moveCount := 1; thinking := false |}, []).
Proof.
  apply (pending_reply_survives_new_game (initialState noStats) afterE4 hard
           (1 # 3) (1, 1, 2, 1)); [ board_shape | reflexivity ].
Defined.
